(** * Navigation core of the vts browser

    A shallow embedding of [browser/src/vts-browser-lib/navigation.cpp]:
    the height requests that sample the terrain under the camera target,
    the per-tick update of the navigation state and the gesture entry
    points, followed by the properties of these operations.

    Numbers of type [double] are IEEE binary64 values (Rocq's primitive
    floats), so that the NaN sentinels and the comparisons of the source
    behave as they do in the program. *)

From Stdlib Require Import ZArith List Bool Floats String Lia.
Import ListNotations.
Set Warnings "-inexact-float,-register-all".
Local Open Scope float_scope.

(** ** Scalars and vectors *)

Definition double := float.

(** [std::numeric_limits<double>::quiet_NaN()] *)
Definition quiet_NaN : double := nan.

Record vec2 := Vec2 { u0 : double; u1 : double }.
Record vec3 := Vec3 { v0 : double; v1 : double; v2 : double }.

Definition vec3to2 (v : vec3) : vec2 := Vec2 (v0 v) (v1 v).
Definition vec2to3 (u : vec2) (w : double) : vec3 := Vec3 (u0 u) (u1 u) w.

Definition set_v0 (v : vec3) (a : double) : vec3 := Vec3 a (v1 v) (v2 v).
Definition set_v1 (v : vec3) (a : double) : vec3 := Vec3 (v0 v) a (v2 v).
Definition set_v2 (v : vec3) (a : double) : vec3 := Vec3 (v0 v) (v1 v) a.

Definition vec3_add (a b : vec3) : vec3 :=
  Vec3 (v0 a + v0 b) (v1 a + v1 b) (v2 a + v2 b).
Definition vec3_sub (a b : vec3) : vec3 :=
  Vec3 (v0 a - v0 b) (v1 a - v1 b) (v2 a - v2 b).
Definition vec3_scale (a : vec3) (k : double) : vec3 :=
  Vec3 (v0 a * k) (v1 a * k) (v2 a * k).
Definition vec3_cwiseProduct (a b : vec3) : vec3 :=
  Vec3 (v0 a * v0 b) (v1 a * v1 b) (v2 a * v2 b).
Definition vec2_add (a b : vec2) : vec2 := Vec2 (u0 a + u0 b) (u1 a + u1 b).
Definition vec2_sub (a b : vec2) : vec2 := Vec2 (u0 a - u0 b) (u1 a - u1 b).
Definition vec2_scale (a : vec2) (k : double) : vec2 :=
  Vec2 (u0 a * k) (u1 a * k).

(** ** Enumerations

    The enumerations are declared in headers outside the sources; their
    values are the ones the file names. *)

Inductive Validity := Indeterminate | Valid | Invalid.

Inductive NavigationGeographicMode := Azimuthal | Free | Dynamic.

(** Modelled from the spec: the file names [Instant] and [Quick]; the
    third solver profile, [FlyOver], is the spec's. *)
Inductive NavigationType := Instant | Quick | FlyOver.

(** [vtslibs::registry::Srs::Type] *)
Inductive SrsType := projected | geographic | cartesian.

(** [vtslibs::registry::Position::HeightMode] *)
Inductive HeightMode := fixed | floating.

(** Modelled from the spec: [vtslibs::registry::Position::Type], of which
    the file names [objective]; the other value, [subjective], is the
    spec's. *)
Inductive PositionType := objective | subjective.

(** [vtslibs::registry::Periodicity::Type] *)
Inductive PeriodicityType := periodic_x | periodic_y.

Definition Validity_eqb (a b : Validity) : bool :=
  match a, b with
  | Indeterminate, Indeterminate | Valid, Valid | Invalid, Invalid => true
  | _, _ => false
  end.

Definition NavigationGeographicMode_eqb (a b : NavigationGeographicMode) : bool :=
  match a, b with
  | Azimuthal, Azimuthal | Free, Free | Dynamic, Dynamic => true
  | _, _ => false
  end.

(** ** Ways in which a call does not return normally

    [runtime_error] and [invalid_argument] are the exceptions the file
    throws itself ([LOGTHROW(err1, ...)] and [LOGTHROW(fatal, ...)]);
    [convertor_error] is an exception raised inside the coordinate
    convertor; [undefined_behaviour] stands for an operation whose
    behaviour C++ leaves undefined (reading a disengaged optional, indexing
    past the end of a vector, a shift by the width of the operand);
    [stale_cursor] is a cursor whose node the tree no longer holds, which a
    path of child indices cannot follow (the program's shared pointer keeps
    such a node alive); [recursion_limit] bounds the descent of
    [findInfoSdsSampled]. *)

Inductive Failure :=
| runtime_error
| invalid_argument
| convertor_error
| undefined_behaviour
| stale_cursor
| recursion_limit.

Inductive Result (A : Type) :=
| Ok (a : A)
| Throw (e : Failure).
Arguments Ok {A} a.
Arguments Throw {A} e.

Definition is_runtime_error (e : Failure) : bool :=
  match e with runtime_error => true | _ => false end.

(** ** Tile identifiers *)

(** Modelled from the spec: a node id is the triple (lod, x, y); the
    declaration of [TileId] belongs to a library outside the sources.  Its
    [x] and [y] are taken as unsigned 32-bit integers and [lod] as an
    unsigned 8-bit integer, each with its wrap-around written out. *)
Record TileId := mkTileId { lod : Z; tx : Z; ty : Z }.

Definition uint32 (z : Z) : Z := (z mod 2 ^ 32)%Z.
Definition uint8 (z : Z) : Z := (z mod 2 ^ 8)%Z.

Definition TileId_eqb (a b : TileId) : bool :=
  (lod a =? lod b)%Z && (tx a =? tx b)%Z && (ty a =? ty b)%Z.

(** ** Node descriptions and the traversal tree *)

Record Extents2 := mkExtents2 { ll : vec2; ur : vec2 }.

Record NodeInfo := mkNodeInfo {
  nodeId : TileId;
  extents : Extents2;
  srs : string
}.

(** A node of the tree of tiles the renderer traverses.  The tree is finite
    and owned by the renderer; the loader changes it between ticks. *)
Inductive TraverseNode := mkTraverseNode {
  validity : Validity;
  trav_nodeInfo : NodeInfo;
  surrogateValue : double;
  childs : list TraverseNode
}.

(** A [std::shared_ptr<TraverseNode>] into the renderer's tree: the child
    indices that lead from the root to the node.  The null pointer is
    [None] at the places that hold such a pointer. *)
Definition TravPtr := list nat.

Fixpoint node_at (n : TraverseNode) (p : TravPtr) : option TraverseNode :=
  match p with
  | [] => Some n
  | i :: p' =>
      match nth_error (childs n) i with
      | Some c => node_at c p'
      | None => None
      end
  end.

(** ** Height requests *)

Record CornerRequest := mkCornerRequest {
  corner_nodeInfo : NodeInfo;
  trav : option TravPtr;
  corner_result : option double
}.

(** [CornerRequest(const NodeInfo &nodeInfo)] *)
Definition CornerRequest_new (ni : NodeInfo) : CornerRequest :=
  {| corner_nodeInfo := ni; trav := None; corner_result := None |}.

Record HeightRequest := mkHeightRequest {
  corners : list CornerRequest;
  nodeInfo : option NodeInfo;
  result : option double;
  navPos : vec2;
  sds : vec2;
  interpol : vec2;
  resetOffset : double
}.

(** [HeightRequest(const vec2 &navPos)] *)
Definition HeightRequest_new (p : vec2) : HeightRequest :=
  {| corners := [];
     nodeInfo := None;
     result := None;
     navPos := p;
     sds := Vec2 quiet_NaN quiet_NaN;
     interpol := Vec2 quiet_NaN quiet_NaN;
     resetOffset := quiet_NaN |}.

(** ** The map: configuration, options, navigation state *)

Record Position := mkPosition {
  position : vec3;
  orientation : vec3;
  verticalExtent : double;
  verticalFov : double;
  heightMode : HeightMode;
  pos_type : PositionType
}.

Record Periodicity := mkPeriodicity {
  periodicity_type : PeriodicityType;
  period : double
}.

Record DivisionNode := mkDivisionNode {
  partitioning_bisection : bool;
  division_srs : string
}.

(** What the file reads of the map configuration: [position],
    [referenceFrame.model.navigationSrs], the type of that srs (also
    [navigationType()]) and its periodicity,
    [referenceFrame.division.nodes] and [browserOptions.autorotate]. *)
Record MapConfig := mkMapConfig {
  mc_position : Position;
  navigationSrs : string;
  navigationSrsType : SrsType;
  navigationSrsPeriodicity : option Periodicity;
  division_nodes : list (TileId * DivisionNode);
  autorotate : double
}.

Record MapOptions := mkMapOptions {
  cameraInertiaPan : double;
  cameraInertiaRotate : double;
  cameraInertiaZoom : double;
  cameraSensitivityPan : double;
  cameraSensitivityRotate : double;
  cameraSensitivityZoom : double;
  navigationLatitudeThreshold : double;
  positionViewExtentMin : double;
  positionViewExtentMax : double;
  navigationSamplesPerViewExtent : double;
  geographicNavMode : NavigationGeographicMode;
  navigationType : NavigationType
}.

Record Navigation := mkNavigation {
  changeRotation : vec3;
  targetPoint : vec3;
  autoRotation : double;
  targetViewExtent : double;
  geographicMode : NavigationGeographicMode;
  nav_type : NavigationType;
  lastPanZShift : option double;
  panZQueue : list HeightRequest
}.

(** [MapImpl::Navigation::Navigation()] *)
Definition Navigation_new : Navigation :=
  {| changeRotation := Vec3 0 0 0;
     targetPoint := Vec3 0 0 0;
     autoRotation := 0;
     targetViewExtent := 0;
     geographicMode := Azimuthal;
     nav_type := Quick;
     lastPanZShift := None;
     panZQueue := [] |}.

(** What the file reads and writes of the map: [navigation], [mapConfig],
    [options], [renderer.traverseRoot] and
    [statistics.lastHeightRequestLod]. *)
Record MapImpl := mkMapImpl {
  navigation : Navigation;
  mapConfig : MapConfig;
  options : MapOptions;
  traverseRoot : option TraverseNode;
  lastHeightRequestLod : Z
}.

Definition set_navigation (m : MapImpl) (n : Navigation) : MapImpl :=
  mkMapImpl n (mapConfig m) (options m) (traverseRoot m)
            (lastHeightRequestLod m).

Definition set_mapConfig (m : MapImpl) (c : MapConfig) : MapImpl :=
  mkMapImpl (navigation m) c (options m) (traverseRoot m)
            (lastHeightRequestLod m).

Definition set_traverseRoot (m : MapImpl) (t : option TraverseNode) : MapImpl :=
  mkMapImpl (navigation m) (mapConfig m) (options m) t
            (lastHeightRequestLod m).

Definition set_lastHeightRequestLod (m : MapImpl) (l : Z) : MapImpl :=
  mkMapImpl (navigation m) (mapConfig m) (options m) (traverseRoot m) l.

Definition set_mc_position (c : MapConfig) (p : Position) : MapConfig :=
  mkMapConfig p (navigationSrs c) (navigationSrsType c)
              (navigationSrsPeriodicity c) (division_nodes c) (autorotate c).

Definition set_pos (m : MapImpl) (p : Position) : MapImpl :=
  set_mapConfig m (set_mc_position (mapConfig m) p).

(** [mapConfig->position] *)
Definition pos (m : MapImpl) : Position := mc_position (mapConfig m).

Definition set_changeRotation (n : Navigation) (v : vec3) : Navigation :=
  mkNavigation v (targetPoint n) (autoRotation n) (targetViewExtent n)
               (geographicMode n) (nav_type n) (lastPanZShift n) (panZQueue n).

Definition set_targetPoint (n : Navigation) (v : vec3) : Navigation :=
  mkNavigation (changeRotation n) v (autoRotation n) (targetViewExtent n)
               (geographicMode n) (nav_type n) (lastPanZShift n) (panZQueue n).

Definition set_autoRotation (n : Navigation) (a : double) : Navigation :=
  mkNavigation (changeRotation n) (targetPoint n) a (targetViewExtent n)
               (geographicMode n) (nav_type n) (lastPanZShift n) (panZQueue n).

Definition set_targetViewExtent (n : Navigation) (a : double) : Navigation :=
  mkNavigation (changeRotation n) (targetPoint n) (autoRotation n) a
               (geographicMode n) (nav_type n) (lastPanZShift n) (panZQueue n).

Definition set_geographicMode (n : Navigation) (g : NavigationGeographicMode)
  : Navigation :=
  mkNavigation (changeRotation n) (targetPoint n) (autoRotation n)
               (targetViewExtent n) g (nav_type n) (lastPanZShift n)
               (panZQueue n).

Definition set_nav_type (n : Navigation) (t : NavigationType) : Navigation :=
  mkNavigation (changeRotation n) (targetPoint n) (autoRotation n)
               (targetViewExtent n) (geographicMode n) t (lastPanZShift n)
               (panZQueue n).

Definition set_lastPanZShift (n : Navigation) (l : option double) : Navigation :=
  mkNavigation (changeRotation n) (targetPoint n) (autoRotation n)
               (targetViewExtent n) (geographicMode n) (nav_type n) l
               (panZQueue n).

Definition set_panZQueue (n : Navigation) (q : list HeightRequest) : Navigation :=
  mkNavigation (changeRotation n) (targetPoint n) (autoRotation n)
               (targetViewExtent n) (geographicMode n) (nav_type n)
               (lastPanZShift n) q.

(** ** What the file calls and does not define

    The coordinate convertor, the tile library, the motion solver, the
    loader's [traverse] and the mathematical helpers are declared in
    headers outside the sources.  They are taken as they are called. *)

Record mat3 := Mat3 { row0 : vec3; row1 : vec3; row2 : vec3 }.

Record Collaborators := mkCollaborators {
  (* tile library *)
  validSurrogate : double -> bool;
  NodeInfo_make : TileId -> NodeInfo;
  NodeInfo_inside : NodeInfo -> vec2 -> bool;
  NodeInfo_child : NodeInfo -> TileId -> NodeInfo;
  children : TileId -> list TileId;
  extents_size : Extents2 -> double;
  (* loader: [MapImpl::traverse(trav, true)], acting on the renderer's tree *)
  traverse : TravPtr -> TraverseNode -> TraverseNode;
  (* convertor *)
  convert : vec3 -> string -> string -> Result vec3;
  physToNav : vec3 -> vec3;
  navToPhys : vec3 -> vec3;
  geoDirect : vec3 -> double -> double -> vec3;
  geoDirect2 : vec3 -> double -> double -> double -> vec3 * double;
  geoInverse : vec3 -> vec3 -> double * double * double;
  geoArcDist : vec3 -> vec3 -> double;
  (* motion solver: new view extent, horizontal step, vertical step and
     new orientation *)
  navigationSolve :
    MapOptions -> NavigationType -> double -> double -> double -> double ->
    double -> double -> vec3 -> vec3 -> double * double * double * vec3;
  (* mathematical helpers *)
  interpolate : double -> double -> double -> double;
  clamp : double -> double -> double -> double;
  modulo : double -> double -> double;
  normalizeAngle : double -> double;
  angularDiff : double -> double -> double;
  angularDiff3 : vec3 -> vec3 -> vec3;
  length2 : vec2 -> double;
  (* [upperLeftSubMatrix(rotationMatrix(axis, angle))] *)
  rotationMatrix3 : Z -> double -> mat3;
  normalize : vec3 -> vec3;
  cross : vec3 -> vec3 -> vec3;
  degToRad : double -> double;
  tan : double -> double;
  log2 : double -> double;
  cos : double -> double;
  atan2 : double -> double -> double;
  pow : double -> double -> double;
  radToDeg : double -> double;
  (* bound on the depth of [findInfoSdsSampled] *)
  sampling_depth_limit : nat
}.

(** ** [HeightRequest::CornerRequest::process] *)

Section HeightRequests.

Variable E : Collaborators.

(** [validSurrogate] of the stored result, as [Valid] or [Invalid] *)
Definition surrogate_validity (r : double) : Validity :=
  if validSurrogate E r then Valid else Invalid.

(** What one descent of the cursor leaves behind: the answer, the node the
    cursor stops at, the elevation it found if any, and whether the load of
    that node was requested. *)
Record Descent := mkDescent {
  answer : Result Validity;
  cursor : TravPtr;
  found : option double;
  load_requested : bool
}.

(** The body of [process] from the [switch] on, for a cursor [p] that
    points at node [n].  The recursive call [process(map)] after [trav = it]
    is the recursive call on the child. *)
Fixpoint descend (target : TileId) (n : TraverseNode) (p : TravPtr)
  {struct n} : Descent :=
  match n with
  | mkTraverseNode v ni s cs =>
      match v with
      | Invalid => mkDescent (Ok Invalid) p None false
      | Indeterminate => mkDescent (Ok Indeterminate) p None true
      | Valid =>
          if TileId_eqb (nodeId ni) target
             || match cs with [] => true | _ :: _ => false end
          then mkDescent (Ok (surrogate_validity s)) p (Some s) false
          else
            let lodDiff := uint32 (lod target - lod (nodeId ni) - 1) in
            if (32 <=? lodDiff)%Z
            then mkDescent (Throw undefined_behaviour) p None false
            else
              let id := mkTileId (uint8 (uint32 (lod target - lodDiff)))
                                 (Z.shiftr (tx target) lodDiff)
                                 (Z.shiftr (ty target) lodDiff) in
              (fix find (l : list TraverseNode) (i : nat) {struct l}
                 : Descent :=
                 match l with
                 | [] => mkDescent (Ok Invalid) p None false
                 | it :: l' =>
                     if TileId_eqb (nodeId (trav_nodeInfo it)) id
                     then descend target it (p ++ [i])
                     else find l' (S i)
                 end) cs 0%nat
      end
  end.

Definition set_trav (c : CornerRequest) (t : option TravPtr) : CornerRequest :=
  mkCornerRequest (corner_nodeInfo c) t (corner_result c).

Definition CornerRequest_process (c : CornerRequest) (m : MapImpl)
  : Result Validity * CornerRequest * MapImpl :=
  match corner_result c with
  | Some r => (Ok (surrogate_validity r), c, m)
  | None =>
      match traverseRoot m with
      | None =>
          match trav c with
          | None => (Ok Indeterminate, c, m)
          | Some _ => (Throw stale_cursor, c, m)
          end
      | Some root =>
          let p := match trav c with Some p => p | None => [] end in
          match node_at root p with
          | None => (Throw stale_cursor, set_trav c (Some p), m)
          | Some n =>
              let d := descend (nodeId (corner_nodeInfo c)) n p in
              (answer d,
               mkCornerRequest (corner_nodeInfo c) (Some (cursor d)) (found d),
               if load_requested d
               then set_traverseRoot m (Some (traverse E (cursor d) root))
               else m)
          end
      end
  end.

(** ** [MapImpl::findInfoNavRoot] and [MapImpl::findInfoSdsSampled] *)

Fixpoint findInfoNavRoot_from (nodes : list (TileId * DivisionNode))
  (navigationSrs : string) (navPos : vec2) : Result (NodeInfo * vec2) :=
  match nodes with
  | [] => Throw runtime_error
  | it :: rest =>
      if negb (partitioning_bisection (snd it))
      then findInfoNavRoot_from rest navigationSrs navPos
      else
        let ni := NodeInfo_make E (fst it) in
        match convert E (vec2to3 navPos 0) navigationSrs
                      (division_srs (snd it)) with
        | Ok q =>
            let sds := vec3to2 q in
            if negb (NodeInfo_inside E ni sds)
            then findInfoNavRoot_from rest navigationSrs navPos
            else Ok (ni, sds)
        | Throw _ => findInfoNavRoot_from rest navigationSrs navPos
        end
  end.

Definition findInfoNavRoot (m : MapImpl) (navPos : vec2)
  : Result (NodeInfo * vec2) :=
  findInfoNavRoot_from (division_nodes (mapConfig m))
                       (navigationSrs (mapConfig m)) navPos.

Fixpoint first_child_inside (info : NodeInfo) (childs : list TileId)
  (sdsPos : vec2) : option NodeInfo :=
  match childs with
  | [] => None
  | c :: rest =>
      let ni := NodeInfo_child E info c in
      if negb (NodeInfo_inside E ni sdsPos)
      then first_child_inside info rest sdsPos
      else Some ni
  end.

Fixpoint findInfoSdsSampled_fuel (fuel : nat) (m : MapImpl) (info : NodeInfo)
  (sdsPos : vec2) : Result NodeInfo :=
  let desire := log2 E (navigationSamplesPerViewExtent (options m)
                        * extents_size E (extents info)
                        / verticalExtent (pos m)) in
  if desire <? 3 then Ok info
  else
    match first_child_inside info (children E (nodeId info)) sdsPos with
    | Some ni =>
        match fuel with
        | O => Throw recursion_limit
        | S fuel' => findInfoSdsSampled_fuel fuel' m ni sdsPos
        end
    | None => Throw runtime_error
    end.

Definition findInfoSdsSampled (m : MapImpl) (info : NodeInfo) (sdsPos : vec2)
  : Result NodeInfo :=
  findInfoSdsSampled_fuel (sampling_depth_limit E) m info sdsPos.

End HeightRequests.

(** ** [HeightRequest::process] *)

Section HeightRequestProcess.

Variable E : Collaborators.

(** How the loop over the corners ends: by the [return] inside the
    [switch], or by running off the end with the flag [determined]. *)
Inductive LoopExit :=
| Returned (v : Validity)
| Completed (determined : bool).

(** [for (auto &&it : corners) switch (it.process(map)) ...] *)
Fixpoint process_corners (cs : list CornerRequest) (determined : bool)
  (m : MapImpl) : Result LoopExit * list CornerRequest * MapImpl :=
  match cs with
  | [] => (Ok (Completed determined), [], m)
  | it :: rest =>
      match CornerRequest_process E it m with
      | (Throw e, it', m') => (Throw e, it' :: rest, m')
      | (Ok Invalid, it', m') => (Ok (Returned Invalid), it' :: rest, m')
      | (Ok Indeterminate, it', m') =>
          match process_corners rest false m' with
          | (x, rest', m'') => (x, it' :: rest', m'')
          end
      | (Ok Valid, it', m') =>
          match process_corners rest determined m' with
          | (x, rest', m'') => (x, it' :: rest', m'')
          end
      end
  end.

(** The block that runs when [corners] is empty, after the navigation root
    and the sampled node have been found: interpolation weights, the id of
    the corner tile, the four corner requests. *)
Definition prepare_corners (r : HeightRequest) (ni : NodeInfo) (sds' : vec2)
  : HeightRequest :=
  let ext := extents ni in
  let center := vec2_scale (vec2_add (ll ext) (ur ext)) 0.5 in
  let size := vec2_sub (ur ext) (ll ext) in
  let i0 := vec2_sub sds' center in
  let i1 := Vec2 (u0 i0 / u0 size) (u1 i0 / u1 size) in
  let cornerId := nodeId ni in
  let west := u0 sds' <? u0 center in
  let south := u1 sds' <? u1 center in
  let cornerId1 :=
    if west then mkTileId (lod cornerId) (uint32 (tx cornerId - 1)) (ty cornerId)
    else cornerId in
  let i2 := if west then Vec2 (u0 i1 + 1) (u1 i1) else i1 in
  let i3 := if south then Vec2 (u0 i2) (u1 i2 + 1) else i2 in
  let cornerId2 :=
    if south then cornerId1
    else mkTileId (lod cornerId1) (tx cornerId1) (uint32 (ty cornerId1 - 1)) in
  let corner (i : Z) :=
    CornerRequest_new
      (NodeInfo_make E (mkTileId (lod cornerId2)
                                 (uint32 (tx cornerId2 + i mod 2))
                                 (uint32 (ty cornerId2 + i / 2)))) in
  mkHeightRequest [corner 0%Z; corner 1%Z; corner 2%Z; corner 3%Z]
                  (Some ni) (result r) (navPos r) sds' i3 (resetOffset r).

(** The first part of [process]: nothing to do when the corners exist;
    otherwise locate the point, where a [std::runtime_error] makes the whole
    request [Invalid]. *)
Definition locate (r : HeightRequest) (m : MapImpl)
  : Result (option Validity) * HeightRequest * MapImpl :=
  match corners r with
  | _ :: _ => (Ok None, r, m)
  | [] =>
      match findInfoNavRoot E m (navPos r) with
      | Throw e =>
          if is_runtime_error e then (Ok (Some Invalid), r, m)
          else (Throw e, r, m)
      | Ok (ni0, sds') =>
          let r1 := mkHeightRequest (corners r) (nodeInfo r) (result r)
                                    (navPos r) sds' (interpol r)
                                    (resetOffset r) in
          match findInfoSdsSampled E m ni0 sds' with
          | Throw e =>
              if is_runtime_error e then (Ok (Some Invalid), r1, m)
              else (Throw e, r1, m)
          | Ok ni =>
              (Ok None, prepare_corners r1 ni sds',
               set_lastHeightRequestLod m (lod (nodeId ni)))
          end
      end
  end.

(** The height inside the square of the four corner elevations, as the
    nested calls of [interpolate] compute it. *)
Definition bilinear (r0 r1 r2 r3 : double) (w : vec2) : double :=
  interpolate E (interpolate E r2 r3 (u0 w)) (interpolate E r0 r1 (u0 w))
              (u1 w).

(** The last part of [process]: the height from the four corner results. *)
Definition find_height (r : HeightRequest) (m : MapImpl)
  : Result double :=
  match corners r, nodeInfo r with
  | c0 :: c1 :: c2 :: c3 :: _, Some ni =>
      match corner_result c0, corner_result c1,
            corner_result c2, corner_result c3 with
      | Some r0, Some r1, Some r2, Some r3 =>
          let height := bilinear r0 r1 r2 r3 (interpol r) in
          match convert E (vec2to3 (sds r) height) (srs ni)
                        (navigationSrs (mapConfig m)) with
          | Ok q => Ok (v2 q)
          | Throw e => Throw e
          end
      | _, _, _, _ => Throw undefined_behaviour
      end
  | _, _ => Throw undefined_behaviour
  end.

Definition set_corners (r : HeightRequest) (cs : list CornerRequest)
  : HeightRequest :=
  mkHeightRequest cs (nodeInfo r) (result r) (navPos r) (sds r) (interpol r)
                  (resetOffset r).

Definition set_result (r : HeightRequest) (h : option double)
  : HeightRequest :=
  mkHeightRequest (corners r) (nodeInfo r) h (navPos r) (sds r) (interpol r)
                  (resetOffset r).

Definition HeightRequest_process (r : HeightRequest) (m : MapImpl)
  : Result Validity * HeightRequest * MapImpl :=
  match result r with
  | Some _ => (Ok Valid, r, m)
  | None =>
      match locate r m with
      | (Throw e, r1, m1) => (Throw e, r1, m1)
      | (Ok (Some v), r1, m1) => (Ok v, r1, m1)
      | (Ok None, r1, m1) =>
          match process_corners (corners r1) true m1 with
          | (Throw e, cs, m2) => (Throw e, set_corners r1 cs, m2)
          | (Ok (Returned v), cs, m2) => (Ok v, set_corners r1 cs, m2)
          | (Ok (Completed false), cs, m2) =>
              (Ok Indeterminate, set_corners r1 cs, m2)
          | (Ok (Completed true), cs, m2) =>
              let r2 := set_corners r1 cs in
              match find_height r2 m2 with
              | Ok height => (Ok Valid, set_result r2 (Some height), m2)
              | Throw e => (Throw e, r2, m2)
              end
          end
      end
  end.

End HeightRequestProcess.

(** ** The navigation state: queue, tick and gestures *)

Section NavigationCore.

Variable E : Collaborators.

(** Operations of [MapImpl] change the map in place and may throw: they
    return how they ended together with the map they leave behind. *)
Definition Op (A : Type) : Type := Result A * MapImpl.

(** [std::queue]: [front] is the head of the list, [push] appends,
    [back() = h] replaces the last element, [pop] drops the head. *)
Definition queue_push {A} (q : list A) (h : A) : list A := q ++ [h].
Definition queue_set_back {A} (q : list A) (h : A) : list A :=
  removelast q ++ [h].

(** The last part of [checkPanZQueue]: apply the height [nh] of [task]
    to the camera target and drop the task. *)
Definition apply_height (task : HeightRequest) (nh : double)
  (rest : list HeightRequest) (n : Navigation) : Navigation :=
  let n1 :=
    if resetOffset task =? resetOffset task
    then set_targetPoint n (set_v2 (targetPoint n) (nh + resetOffset task))
    else
      match lastPanZShift n with
      | Some l =>
          set_targetPoint n
            (set_v2 (targetPoint n) (v2 (targetPoint n) + (nh - l)))
      | None => n
      end in
  set_panZQueue (set_lastPanZShift n1 (Some nh)) rest.

Definition checkPanZQueue (m : MapImpl) : Op unit :=
  match panZQueue (navigation m) with
  | [] => (Ok tt, m)
  | task :: rest =>
      match HeightRequest_process E task m with
      | (res, task', m') =>
          (* [task] is the object at the front of the queue *)
          let held := set_navigation m'
                        (set_panZQueue (navigation m') (task' :: rest)) in
          match res with
          | Throw e => (Throw e, held)
          | Ok Indeterminate => (Ok tt, held)
          | Ok Invalid =>
              (Ok tt, set_navigation m' (set_panZQueue (navigation m') rest))
          | Ok Valid =>
              match result task' with
              | Some nh =>
                  (Ok tt,
                   set_navigation m'
                     (apply_height task' nh rest (navigation m')))
              | None => (Throw undefined_behaviour, held)
              end
          end
      end
  end.

Definition resetPositionAltitude (m : MapImpl) (resetOffset' : double)
  : MapImpl :=
  let n := navigation m in
  let n1 := set_targetPoint n (set_v2 (targetPoint n) 0) in
  let n2 := set_lastPanZShift n1 None in
  let n3 := set_panZQueue n2 [] in
  let r := HeightRequest_new (vec3to2 (position (pos m))) in
  let r' := mkHeightRequest (corners r) (nodeInfo r) (result r) (navPos r)
                            (sds r) (interpol r) resetOffset' in
  set_navigation m (set_panZQueue n3 (queue_push (panZQueue n3) r')).

Definition resetNavigationGeographicMode (m : MapImpl) : MapImpl :=
  let n := navigation m in
  match geographicNavMode (options m) with
  | Dynamic => set_navigation m (set_geographicMode n Azimuthal)
  | g => set_navigation m (set_geographicMode n g)
  end.

(** [MapImpl::initializeNavigation], after the convertor has been made *)
Definition initializeNavigation (m : MapImpl) : MapImpl :=
  let p := pos m in
  let n := navigation m in
  let n1 := set_targetPoint n (position p) in
  let n2 := set_changeRotation n1 (Vec3 0 0 0) in
  let n3 := set_targetViewExtent n2 (verticalExtent p) in
  let n4 := set_autoRotation n3 (autorotate (mapConfig m)) in
  let o := orientation p in
  let o' := Vec3 (normalizeAngle E (v0 o)) (normalizeAngle E (v1 o))
                 (normalizeAngle E (v2 o)) in
  set_pos (set_navigation m n4)
          (mkPosition (position p) o' (verticalExtent p) (verticalFov p)
                      (heightMode p) (pos_type p)).

(** *** [MapImpl::updateNavigation], block by block *)

(** "floating position" *)
Definition ground_floating_position (m : MapImpl) : MapImpl :=
  let p := pos m in
  match heightMode p with
  | floating =>
      resetPositionAltitude
        (set_pos m (mkPosition (position p) (orientation p)
                               (verticalExtent p) (verticalFov p) fixed
                               (pos_type p)))
        (v2 (position p))
  | fixed => m
  end.

(** "limit zoom" *)
Definition limit_zoom (m : MapImpl) : MapImpl :=
  let n := navigation m in
  set_navigation m
    (set_targetViewExtent n
       (clamp E (targetViewExtent n) (positionViewExtentMin (options m))
              (positionViewExtentMax (options m)))).

(** "check navigation mode" *)
Definition check_navigation_mode (o : MapOptions) (n : Navigation)
  : Navigation :=
  match geographicNavMode o with
  | Dynamic =>
      (* too close to pole -> switch to free mode *)
      if navigationLatitudeThreshold o - 1e-5 <? abs (v1 (targetPoint n))
      then set_geographicMode n Free
      else n
  | g => set_geographicMode n g
  end.

(** "limit latitude in azimuthal navigation" *)
Definition limit_latitude (o : MapOptions) (n : Navigation) : Navigation :=
  match geographicMode n with
  | Azimuthal =>
      set_targetPoint n
        (set_v1 (targetPoint n)
           (clamp E (v1 (targetPoint n))
                  (- navigationLatitudeThreshold o)
                  (navigationLatitudeThreshold o)))
  | _ => n
  end.

Definition geographic_navigation (m : MapImpl) : MapImpl :=
  match navigationSrsType (mapConfig m) with
  | geographic =>
      set_navigation m
        (limit_latitude (options m)
           (check_navigation_mode (options m) (navigation m)))
  | _ => m
  end.

(** "auto rotation" *)
Definition auto_rotation (m : MapImpl) : MapImpl :=
  let n := navigation m in
  set_navigation m
    (set_changeRotation n
       (set_v0 (changeRotation n) (v0 (changeRotation n) + autoRotation n))).

(** The state in which the solver is called: the tick up to and including
    "auto rotation", given the map [checkPanZQueue] left. *)
Definition before_solver (m : MapImpl) : MapImpl :=
  auto_rotation (geographic_navigation (limit_zoom (ground_floating_position m))).

(** "find inputs for perceptually invariant motion": [horizontal1], [azi1]
    and [azi2] *)
Definition motion_inputs (m : MapImpl) (p : vec3)
  : Result (double * double * double) :=
  match navigationSrsType (mapConfig m) with
  | projected =>
      Ok (length2 E (vec2_sub (vec3to2 (targetPoint (navigation m)))
                              (vec3to2 p)),
          quiet_NaN, quiet_NaN)
  | geographic => Ok (geoInverse E p (targetPoint (navigation m)))
  | cartesian => Throw invalid_argument
  end.

(** "horizontal move": the new [p] and [r] *)
Definition horizontal_move (m : MapImpl) (p r : vec3)
  (horizontal1 horizontal2 azi1 azi2 : double) : Result (vec3 * vec3) :=
  if 0 <? horizontal1 then
    match navigationSrsType (mapConfig m) with
    | projected =>
        Ok (vec3_add p (vec3_scale (vec3_sub (targetPoint (navigation m)) p)
                                   (horizontal2 / horizontal1)), r)
    | geographic =>
        match geographicMode (navigation m) with
        | Free =>
            let '(p', azi2') := geoDirect2 E p horizontal2 azi1 azi2 in
            Ok (p', set_v0 r (v0 r + (azi2' - azi1)))
        | Azimuthal =>
            let t := targetPoint (navigation m) in
            let p0 := v0 p + angularDiff E (v0 p) (v0 t)
                             * (horizontal2 / horizontal1) in
            let p1 := v1 p + angularDiff E (v1 p) (v1 t)
                             * (horizontal2 / horizontal1) in
            Ok (Vec3 p0 p1 (v2 p), r)
        | Dynamic => Throw invalid_argument
        end
    | cartesian => Throw invalid_argument
    end
  else Ok (p, r).

(** "apply periodicity": the wrapped [p] *)
Definition apply_periodicity (c : MapConfig) (p : vec3) : Result vec3 :=
  match navigationSrsType c with
  | projected =>
      match navigationSrsPeriodicity c with
      | Some pr =>
          match periodicity_type pr with
          | periodic_x =>
              Ok (set_v0 p (modulo E (v0 p + period pr * 0.5) (period pr)
                            - period pr * 0.5))
          | periodic_y =>
              Ok (set_v1 p (modulo E (v1 p + period pr * 0.5) (period pr)
                            - period pr * 0.5))
          end
      | None => Ok p
      end
  | geographic => Ok (set_v0 p (modulo E (v0 p + 180) 360 - 180))
  | cartesian => Throw invalid_argument
  end.

(** "normalize rotation" *)
Definition normalize_rotation (r : vec3) : vec3 :=
  let r' := Vec3 (normalizeAngle E (v0 r)) (normalizeAngle E (v1 r))
                 (normalizeAngle E (v2 r)) in
  set_v1 r' (clamp E (v1 r') 270 350).

(** "vertical camera adjustment" *)
Definition enqueue_height_request (n : Navigation) (p : vec3) : Navigation :=
  let h := HeightRequest_new (vec3to2 p) in
  if (List.length (panZQueue n) <? 2)%nat
  then set_panZQueue n (queue_push (panZQueue n) h)
  else set_panZQueue n (queue_set_back (panZQueue n) h).

(** "store changed values" *)
Definition store_position (m : MapImpl) (p r : vec3) : MapImpl :=
  let q := pos m in
  set_pos m (mkPosition p r (verticalExtent q) (verticalFov q) (heightMode q)
                        (pos_type q)).

Definition set_verticalExtent (m : MapImpl) (e : double) : MapImpl :=
  let q := pos m in
  set_pos m (mkPosition (position q) (orientation q) e (verticalFov q)
                        (heightMode q) (pos_type q)).

(** The tick from the call of the solver on; [p] and [r] are the position
    and the orientation read at the start of the tick. *)
Definition solve_and_move (m : MapImpl) (p r : vec3) : Op unit :=
  match motion_inputs m p with
  | Throw e => (Throw e, m)
  | Ok (horizontal1, azi1, azi2) =>
      let n := navigation m in
      let vertical1 := v2 (targetPoint n) - v2 p in
      let '(extent', horizontal2, vertical2, r2) :=
        navigationSolve E (options m) (nav_type n) (1.0 / 60.0)
          (verticalFov (pos m)) horizontal1 vertical1
          (verticalExtent (pos m))
          (targetViewExtent n - verticalExtent (pos m))
          r (changeRotation n) in
      let m1 := set_verticalExtent m extent' in
      (* vertical move *)
      let p1 := set_v2 p (v2 p + vertical2) in
      (* rotation *)
      let m2 := set_navigation m1
                  (set_changeRotation (navigation m1)
                     (vec3_sub (changeRotation (navigation m1))
                               (vec3_sub r2 r))) in
      match horizontal_move m2 p1 r2 horizontal1 horizontal2 azi1 azi2 with
      | Throw e => (Throw e, m2)
      | Ok (p2, r3) =>
          match apply_periodicity (mapConfig m2) p2 with
          | Throw e => (Throw e, m2)
          | Ok p3 =>
              let m3 := set_navigation m2
                          (set_targetPoint (navigation m2)
                             (vec3_add (targetPoint (navigation m2))
                                       (vec3_sub p3 p2))) in
              let r4 := normalize_rotation r3 in
              let m4 := set_navigation m3
                          (enqueue_height_request (navigation m3) p3) in
              (Ok tt, store_position m4 p3 r4)
          end
      end
  end.

(** The assertions of the function are left out: they read the state and
    are compiled out of release builds. *)
Definition updateNavigation (m : MapImpl) : Op unit :=
  match checkPanZQueue m with
  | (Throw e, m1) => (Throw e, m1)
  | (Ok _, m1) =>
      let p := position (pos m1) in
      let r := orientation (pos m1) in
      solve_and_move (before_solver m1) p r
  end.

(** *** Gestures *)

Definition vec3_dot (a b : vec3) : double :=
  v0 a * v0 b + v1 a * v1 b + v2 a * v2 b.

Definition mat3_mul_vec3 (r : mat3) (v : vec3) : vec3 :=
  Vec3 (vec3_dot (row0 r) v) (vec3_dot (row1 r) v) (vec3_dot (row2 r) v).

Definition is_geographic (m : MapImpl) : bool :=
  match navigationSrsType (mapConfig m) with geographic => true | _ => false end.

(** The move of a pan in navigation axes, before it is applied to
    [targetPoint]. *)
Definition pan_move (m : MapImpl) (value : vec3) : vec3 :=
  let q := pos m in
  let n := navigation m in
  let h :=
    if is_geographic m && NavigationGeographicMode_eqb (geographicMode n) Azimuthal
    then cos E (v1 (position q) * 3.14159 / 180)   (* slower pan near poles *)
    else 1 in
  (* pan speed depends on zoom level *)
  let v := verticalExtent q / 800 in
  let move := vec3_cwiseProduct value
                (vec3_scale (Vec3 (-2 * v * h) (2 * v) 2)
                            (cameraSensitivityPan (options m))) in
  let azi := v0 (orientation q) in
  let azi' :=
    if is_geographic m && NavigationGeographicMode_eqb (geographicMode n) Free
    then
      let '(_, a1, a2) := geoInverse E (position q) (targetPoint n) in
      azi + (a2 - a1)
    else azi in
  (* the move is rotated by the camera *)
  mat3_mul_vec3 (rotationMatrix3 E 2 (- azi')) move.

(** The point a pan asks for in a geographic navigation srs *)
Definition pan_destination (n : Navigation) (move : vec3) : vec3 :=
  let p := targetPoint n in
  let ang1 := radToDeg E (atan2 E (v0 move) (v1 move)) in
  let dist := length2 E (vec3to2 move) in
  let p' := geoDirect E p dist ang1 in
  set_v2 p' (v2 p' + v2 move).

Definition pan (m : MapImpl) (value : vec3) : Op unit :=
  let q := pos m in
  let n := navigation m in
  let move := pan_move m value in
  let moved : Result Navigation :=
    match navigationSrsType (mapConfig m) with
    | projected => Ok (set_targetPoint n (vec3_add (targetPoint n) move))
    | geographic =>
        let p := pan_destination n move in
        (* ignore the pan, if it would cause too rapid direction change *)
        match geographicMode n with
        | Azimuthal =>
            if abs (angularDiff E (v0 (position q)) (v0 p)) <? 150
            then Ok (set_targetPoint n p)
            else Ok n
        | Free =>
            if geoArcDist E (position q) p <? 150
            then Ok (set_targetPoint n p)
            else Ok n
        | Dynamic => Throw invalid_argument
        end
    | cartesian => Throw invalid_argument
    end in
  match moved with
  | Throw e => (Throw e, m)
  | Ok n1 =>
      (Ok tt,
       set_navigation m
         (set_nav_type (set_autoRotation n1 0) (navigationType (options m))))
  end.

Definition rotate (m : MapImpl) (value : vec3) : MapImpl :=
  let n := navigation m in
  let n1 := set_changeRotation n
              (vec3_add (changeRotation n)
                 (vec3_cwiseProduct value
                    (vec3_scale (Vec3 0.2 (-0.1) 0.2)
                                (cameraSensitivityRotate (options m))))) in
  let n2 := match geographicNavMode (options m) with
            | Dynamic => set_geographicMode n1 Free
            | _ => n1
            end in
  set_navigation m
    (set_nav_type (set_autoRotation n2 0) (navigationType (options m))).

Definition zoom (m : MapImpl) (value : double) : MapImpl :=
  let n := navigation m in
  let c := value * cameraSensitivityZoom (options m) in
  let n1 := set_targetViewExtent n (targetViewExtent n * pow E 1.001 (- c)) in
  set_navigation m
    (set_nav_type (set_autoRotation n1 0) (navigationType (options m))).

Definition setPoint (m : MapImpl) (point : vec3) (type : NavigationType)
  : MapImpl :=
  let n := navigation m in
  let n1 := set_nav_type (set_autoRotation (set_targetPoint n point) 0) type in
  match nav_type n1 with
  | Instant => set_navigation m (set_panZQueue (set_lastPanZShift n1 None) [])
  | _ => set_navigation m n1
  end.

Definition setRotation (m : MapImpl) (euler : vec3) (type : NavigationType)
  : MapImpl :=
  let n := navigation m in
  let n1 := set_changeRotation n (angularDiff3 E (orientation (pos m)) euler) in
  set_navigation m (set_nav_type (set_autoRotation n1 0) type).

Definition setViewExtent (m : MapImpl) (viewExtent : double)
  (type : NavigationType) : MapImpl :=
  let n := navigation m in
  let n1 := set_targetViewExtent n viewExtent in
  set_navigation m (set_nav_type (set_autoRotation n1 0) type).

(** *** The camera and the switch between subjective and objective *)

Definition mat3_col (r : mat3) (j : nat) : vec3 :=
  match j with
  | O => Vec3 (v0 (row0 r)) (v0 (row1 r)) (v0 (row2 r))
  | S O => Vec3 (v1 (row0 r)) (v1 (row1 r)) (v1 (row2 r))
  | _ => Vec3 (v2 (row0 r)) (v2 (row1 r)) (v2 (row2 r))
  end.

Definition mat3_mul (a b : mat3) : mat3 :=
  let row (r : vec3) :=
    Vec3 (vec3_dot r (mat3_col b 0)) (vec3_dot r (mat3_col b 1))
         (vec3_dot r (mat3_col b 2)) in
  Mat3 (row (row0 a)) (row (row1 a)) (row (row2 a)).

(** [(mat3() << n, e, d).finished()]: the matrix with columns [n], [e], [d] *)
Definition mat3_of_columns (n e d : vec3) : mat3 :=
  Mat3 (Vec3 (v0 n) (v0 e) (v0 d)) (Vec3 (v1 n) (v1 e) (v1 d))
       (Vec3 (v2 n) (v2 e) (v2 d)).

(** [MapImpl::positionToCamera]: [center], [dir] and [up] *)
Definition positionToCamera (m : MapImpl) : Result (vec3 * vec3 * vec3) :=
  let q := pos m in
  (* camera-space vectors *)
  let rot := orientation q in
  let center := position q in
  let dir := Vec3 1 0 0 in
  let up := Vec3 0 0 (-1) in
  (* apply rotation *)
  let yaw := match navigationSrsType (mapConfig m) with
             | projected => v0 rot
             | _ => - v0 rot
             end in
  let tmp := mat3_mul (mat3_mul (rotationMatrix3 E 2 yaw)
                                (rotationMatrix3 E 1 (- v1 rot)))
                      (rotationMatrix3 E 0 (- v2 rot)) in
  let dir := mat3_mul_vec3 tmp dir in
  let up := mat3_mul_vec3 tmp up in
  (* transform to physical srs *)
  match navigationSrsType (mapConfig m) with
  | projected =>
      let dir := Vec3 (v1 dir) (v0 dir) (v2 dir * -1) in
      let up := Vec3 (v1 up) (v0 up) (v2 up * -1) in
      let dir := vec3_add dir center in
      let up := vec3_add up center in
      let center' := navToPhys E center in
      let dir := navToPhys E dir in
      let up := navToPhys E up in
      Ok (center', normalize E (vec3_sub dir center'),
          normalize E (vec3_sub up center'))
  | geographic =>
      let n2 := geoDirect E center 100 0 in
      let e2 := geoDirect E center 100 90 in
      let center' := navToPhys E center in
      let n := navToPhys E n2 in
      let e := navToPhys E e2 in
      let n := normalize E (vec3_sub n center') in
      let e := normalize E (vec3_sub e center') in
      let d := normalize E (cross E n e) in
      let e := normalize E (cross E n d) in
      let tmp := mat3_of_columns n e d in
      Ok (center', normalize E (mat3_mul_vec3 tmp dir),
          normalize E (mat3_mul_vec3 tmp up))
  | cartesian => Throw invalid_argument
  end.

Definition positionObjectiveDistance (m : MapImpl) : double :=
  verticalExtent (pos m) * 0.5 / tan E (degToRad E (verticalFov (pos m) * 0.5)).

Definition convertPositionSubjObj (m : MapImpl) : Op unit :=
  match positionToCamera m with
  | Throw e => (Throw e, m)
  | Ok (center, dir, up) =>
      let dist := positionObjectiveDistance m in
      let dist := match pos_type (pos m) with
                  | objective => dist * -1
                  | subjective => dist
                  end in
      let center := vec3_add center (vec3_scale dir dist) in
      let q := pos m in
      (Ok tt,
       set_pos m (mkPosition (physToNav E center) (orientation q)
                             (verticalExtent q) (verticalFov q)
                             (heightMode q) (pos_type q)))
  end.

End NavigationCore.

(** ** Notions used to state the properties *)

Section Notions.

Variable E : Collaborators.

(** The answer each corner gives when the corners are processed one after
    the other, every one of them, each on the map its predecessors left. *)
Fixpoint process_each (cs : list CornerRequest) (m : MapImpl)
  : list (Result Validity) * list CornerRequest * MapImpl :=
  match cs with
  | [] => ([], [], m)
  | c :: rest =>
      match CornerRequest_process E c m with
      | (a, c', m1) =>
          match process_each rest m1 with
          | (answers, rest', m2) => (a :: answers, c' :: rest', m2)
          end
      end
  end.

(** The map on which the solver is called in a tick that starts on [m]:
    [updateNavigation] up to and including "auto rotation". *)
Definition solver_state (m : MapImpl) : Result MapImpl :=
  match checkPanZQueue E m with
  | (Throw e, _) => Throw e
  | (Ok _, m1) => Ok (before_solver E m1)
  end.

(** The entry points of the navigation, and the map each leaves behind
    (also when it throws). *)
Inductive Call :=
| call_initializeNavigation
| call_updateNavigation
| call_pan (value : vec3)
| call_rotate (value : vec3)
| call_zoom (value : double)
| call_setPoint (point : vec3) (type : NavigationType)
| call_setRotation (euler : vec3) (type : NavigationType)
| call_setViewExtent (viewExtent : double) (type : NavigationType)
| call_resetPositionAltitude (resetOffset : double)
| call_resetNavigationGeographicMode.

Definition perform (m : MapImpl) (c : Call) : MapImpl :=
  match c with
  | call_initializeNavigation => initializeNavigation E m
  | call_updateNavigation => snd (updateNavigation E m)
  | call_pan value => snd (pan E m value)
  | call_rotate value => rotate m value
  | call_zoom value => zoom E m value
  | call_setPoint point type => setPoint m point type
  | call_setRotation euler type => setRotation E m euler type
  | call_setViewExtent viewExtent type => setViewExtent m viewExtent type
  | call_resetPositionAltitude k => resetPositionAltitude m k
  | call_resetNavigationGeographicMode => resetNavigationGeographicMode m
  end.

Definition perform_all (m : MapImpl) (cs : list Call) : MapImpl :=
  fold_left perform cs m.

(** Modelled from the spec: [normalizeAngle] is one of the mathematical
    helpers, defined outside the sources; the spec has it "normalize
    orientation angles into [0, 360)", which the tick also asserts of its
    three results. *)
Definition normalizeAngle_in_range : Prop :=
  forall a : double,
    (0 <=? normalizeAngle E a) = true /\ (normalizeAngle E a <? 360) = true.

(** Modelled from the spec: [clamp] is one of the mathematical helpers,
    defined outside the sources; the spec has it "clamp pitch into
    [270, 350]".  Of a number and ordered bounds it returns the lower
    bound, the upper bound, or the number itself when that lies between
    them. *)
Definition clamp_between : Prop :=
  forall v lo hi : double,
    (v =? v) = true -> (lo <=? hi) = true ->
    clamp E v lo hi = lo \/ clamp E v lo hi = hi
    \/ (clamp E v lo hi = v /\ (lo <=? v) = true /\ (v <=? hi) = true).

End Notions.

(** An angle in [0, 360) and a pitch in [270, 350] *)
Definition in_0_360 (a : double) : Prop :=
  (0 <=? a) = true /\ (a <? 360) = true.

Definition in_270_350 (a : double) : Prop :=
  (270 <=? a) = true /\ (a <=? 350) = true.

(** A call that works on the tiles leaves the navigation state, the
    configuration and the options of the map alone. *)
Definition same_settings (m m' : MapImpl) : Prop :=
  navigation m' = navigation m /\ mapConfig m' = mapConfig m
  /\ options m' = options m.

(** ** Notions used to state further properties *)

Section MoreNotions.

Variable E : Collaborators.

(** A division node qualifies as navigation root of a point when its
    partitioning is a bisection, the point converts to its srs and the
    converted point is inside it: the three tests of the loop of
    [findInfoNavRoot]. *)
Definition is_nav_root_of (navigationSrs' : string) (navPos : vec2)
  (it : TileId * DivisionNode) : bool :=
  partitioning_bisection (snd it)
  && match convert E (vec2to3 navPos 0) navigationSrs'
                   (division_srs (snd it)) with
     | Ok q => NodeInfo_inside E (NodeInfo_make E (fst it)) (vec3to2 q)
     | Throw _ => false
     end.

(** [desire < 3] in [findInfoSdsSampled] *)
Definition coarse_enough (m : MapImpl) (info : NodeInfo) : bool :=
  log2 E (navigationSamplesPerViewExtent (options m)
          * extents_size E (extents info) / verticalExtent (pos m)) <? 3.

End MoreNotions.

(** The request [resetPositionAltitude] queues: a fresh request for the
    position, carrying the offset. *)
Definition altitude_request (p : vec3) (k : double) : HeightRequest :=
  let r := HeightRequest_new (vec3to2 p) in
  mkHeightRequest (corners r) (nodeInfo r) (result r) (navPos r) (sds r)
                  (interpol r) k.

(** ** A small world to run the operations on

    Stand-ins for what the file calls and does not define, simple enough
    to evaluate.  The world is the plate of longitudes and latitudes cut
    into a quadtree of tiles, tile rows counted from the north; the chart
    of the convertor is the identity; every move goes due east and
    distances are degrees of longitude; the camera is not rotated; the
    solver closes every residual in one step; a request to load a tile has
    no immediate effect. *)

Definition double_of_Z (z : Z) : double :=
  if (z <? 0)%Z then - of_uint63 (Uint63.of_Z (- z))
  else of_uint63 (Uint63.of_Z z).

Definition flat_interpolate (a b f : double) : double := (b - a) * f + a.

Definition flat_clamp (v lo hi : double) : double :=
  if (lo <=? v) && (v <=? hi) then v else if v <? lo then lo else hi.

Definition flat_modulo (a m : double) : double :=
  if a <? 0 then a + m else if m <=? a then a - m else a.

Definition flat_normalizeAngle (a : double) : double :=
  let r := flat_modulo a 360 in
  if (0 <=? r) && (r <? 360) then r else 0.

Definition flat_angularDiff (a b : double) : double :=
  let c := b - a in
  if 180 <? c then c - 360 else if c <? -180 then c + 360 else c.

(** The integer part of the binary logarithm, which lies on the same side
    of 3 as the logarithm itself *)
Definition flat_log2 (a : double) : double :=
  double_of_Z (snd (Z.frexp a) - 1).

Definition flat_inside (ni : NodeInfo) (p : vec2) : bool :=
  (u0 (ll (extents ni)) <=? u0 p) && (u0 p <=? u0 (ur (extents ni)))
  && (u1 (ll (extents ni)) <=? u1 p) && (u1 p <=? u1 (ur (extents ni))).

(** The tile (lod, x, y) spans 360 / 2^lod degrees of longitude from the
    west and 180 / 2^lod degrees of latitude from the north. *)
Definition flat_NodeInfo (id : TileId) : NodeInfo :=
  let w := Z.ldexp 360 (- lod id) in
  let h := Z.ldexp 180 (- lod id) in
  let west := -180 + double_of_Z (tx id) * w in
  let north := 90 - double_of_Z (ty id) * h in
  mkNodeInfo id (mkExtents2 (Vec2 west (north - h)) (Vec2 (west + w) north))
             "nav".

Definition flat_children (id : TileId) : list TileId :=
  [ mkTileId (lod id + 1) (2 * tx id) (2 * ty id);
    mkTileId (lod id + 1) (2 * tx id + 1) (2 * ty id);
    mkTileId (lod id + 1) (2 * tx id) (2 * ty id + 1);
    mkTileId (lod id + 1) (2 * tx id + 1) (2 * ty id + 1) ]%Z.

Definition flat_east (p : vec3) (dist : double) : vec3 :=
  Vec3 (v0 p + dist) (v1 p) (v2 p).

Definition flat : Collaborators :=
  {| validSurrogate := fun h => negb (h =? neg_infinity);
     NodeInfo_make := flat_NodeInfo;
     NodeInfo_inside := flat_inside;
     NodeInfo_child := fun _ id => flat_NodeInfo id;
     children := flat_children;
     extents_size := fun e => u0 (ur e) - u0 (ll e);
     traverse := fun _ root => root;
     convert := fun p _ _ => Ok p;
     physToNav := fun p => p;
     navToPhys := fun p => p;
     geoDirect := fun p dist _ => flat_east p dist;
     geoDirect2 := fun p dist _ azi2 => (flat_east p dist, azi2);
     geoInverse := fun a b => (abs (v0 b - v0 a), 90, 90);
     geoArcDist := fun a b => abs (v0 b - v0 a);
     navigationSolve :=
       fun _ _ _ _ horizontal1 vertical1 extent extentChange r change =>
         (extent + extentChange, horizontal1, vertical1, vec3_add r change);
     interpolate := flat_interpolate;
     clamp := flat_clamp;
     modulo := flat_modulo;
     normalizeAngle := flat_normalizeAngle;
     angularDiff := flat_angularDiff;
     angularDiff3 :=
       fun a b => Vec3 (flat_angularDiff (v0 a) (v0 b))
                       (flat_angularDiff (v1 a) (v1 b))
                       (flat_angularDiff (v2 a) (v2 b));
     length2 := fun u => sqrt (u0 u * u0 u + u1 u * u1 u);
     rotationMatrix3 :=
       fun _ _ => Mat3 (Vec3 1 0 0) (Vec3 0 1 0) (Vec3 0 0 1);
     normalize := fun v => v;
     cross := fun a b =>
       Vec3 (v1 a * v2 b - v2 a * v1 b) (v2 a * v0 b - v0 a * v2 b)
            (v0 a * v1 b - v1 a * v0 b);
     degToRad := fun a => a * 3.141592653589793 / 180;
     tan := fun _ => 1;
     log2 := flat_log2;
     cos := fun _ => 1;
     atan2 := fun _ _ => 1.5707963267948966;
     pow := fun _ _ => 1;
     radToDeg := fun a => a * 180 / 3.141592653589793;
     sampling_depth_limit := 32 |}.

Definition flat_options : MapOptions :=
  {| cameraInertiaPan := 0.5;
     cameraInertiaRotate := 0.5;
     cameraInertiaZoom := 0.5;
     cameraSensitivityPan := 1;
     cameraSensitivityRotate := 1;
     cameraSensitivityZoom := 1;
     navigationLatitudeThreshold := 80;
     positionViewExtentMin := 75;
     positionViewExtentMax := 10000000;
     navigationSamplesPerViewExtent := 8;
     geographicNavMode := Dynamic;
     navigationType := Quick |}.

(** The camera looks down at the point (0, 0) from 100 above. *)
Definition flat_position : Position :=
  {| position := Vec3 0 0 100;
     orientation := Vec3 0 270 0;
     verticalExtent := 100;
     verticalFov := 45;
     heightMode := fixed;
     pos_type := objective |}.

(** The tiles down to a depth below [id], the tile (lod, x, y) having the
    elevation 10 x + y and the state [state] tells *)
Fixpoint flat_quadtree (state : TileId -> Validity) (depth : nat)
  (id : TileId) : TraverseNode :=
  mkTraverseNode (state id) (flat_NodeInfo id)
                 (double_of_Z (10 * tx id + ty id))
                 match depth with
                 | O => []
                 | S d => map (flat_quadtree state d) (flat_children id)
                 end.

(** All tiles down to lod 2, loaded *)
Definition flat_tree : TraverseNode :=
  flat_quadtree (fun _ => Valid) 2 (mkTileId 0 0 0).

(** The same tiles while the tile (2, 2, 2) is still being loaded *)
Definition flat_tree_loading : TraverseNode :=
  flat_quadtree
    (fun id => if TileId_eqb id (mkTileId 2 2 2) then Indeterminate else Valid)
    2 (mkTileId 0 0 0).

(** The map as constructed, in a navigation srs of type [t] *)
Definition flat_map_new (t : SrsType) : MapImpl :=
  {| navigation := Navigation_new;
     mapConfig :=
       {| mc_position := flat_position;
          navigationSrs := "nav";
          navigationSrsType := t;
          navigationSrsPeriodicity := None;
          division_nodes := [(mkTileId 0 0 0, mkDivisionNode true "nav")];
          autorotate := 0 |};
     options := flat_options;
     traverseRoot := Some flat_tree;
     lastHeightRequestLod := 0 |}.

(** The map after [initializeNavigation] *)
Definition flat_map (t : SrsType) : MapImpl :=
  initializeNavigation flat (flat_map_new t).

(** A request for the height under the camera that carries the offset [k]
    ([quiet_NaN] for none), as [resetPositionAltitude] and the tick make
    them *)
Definition flat_request (k : double) : HeightRequest :=
  let r := HeightRequest_new (vec3to2 (position flat_position)) in
  mkHeightRequest (corners r) (nodeInfo r) (result r) (navPos r) (sds r)
                  (interpol r) k.

(** The same request once [process] has located it and prepared its four
    corners: the tiles (2, 1, 1), (2, 2, 1), (2, 1, 2) and (2, 2, 2) *)
Definition flat_prepared_request (k : double) : HeightRequest :=
  snd (fst (locate flat (flat_request k) (flat_map projected))).

(** A prepared request for the point (-22.5, 11.25), off the centre of the
    block of its corners: the same four tiles, with the weights
    (0.25, 0.75) *)
Definition flat_offcentre_request : HeightRequest :=
  snd (fst (locate flat (HeightRequest_new (Vec2 (-22.5) 11.25))
                   (flat_map projected))).

(** A map whose height queue holds [flat_request k] *)
Definition flat_map_with_request (k : double) : MapImpl :=
  let m := flat_map projected in
  set_navigation m (set_panZQueue (navigation m) [flat_request k]).

(** * Properties *)

(** ** Comparisons of binary64 values *)

Lemma SFcompare_refl (s : spec_float) :
  s <> S754_nan -> SFcompare s s = Some Eq.
Proof.
  destruct s as [sg | sg | | sg mt ex]; simpl; intros Hn;
    try congruence; try (destruct sg; reflexivity).
  rewrite (Z.compare_refl ex).
  change (PosDef.Pos.compare_cont Eq mt mt) with (Pos.compare_cont Eq mt mt).
  rewrite Pos.compare_cont_refl; destruct sg; reflexivity.
Qed.

Lemma SFcompare_some_r (a b : spec_float) (c : comparison) :
  SFcompare a b = Some c -> b <> S754_nan.
Proof.
  intros H Hb; subst b; destruct a; simpl in H; discriminate.
Qed.

(** A value that compares against something is not a NaN. *)
Lemma leb_true_not_nan (a b : double) : (a <=? b) = true -> (b =? b) = true.
Proof.
  rewrite FloatAxioms.leb_spec, FloatAxioms.eqb_spec; unfold SFleb, SFeqb; intros H.
  destruct (SFcompare (Prim2SF a) (Prim2SF b)) as [c |] eqn:Hc;
    [| discriminate].
  rewrite (SFcompare_refl _ (SFcompare_some_r _ _ _ Hc)); reflexivity.
Qed.

(** ** Height requests *)

Section HeightRequestProperties.

Variable E : Collaborators.

(** Induction over the tree of tiles, with the property available for all
    children of a node. *)
Lemma TraverseNode_children_ind (P : TraverseNode -> Prop) :
  (forall v ni s cs, Forall P cs -> P (mkTraverseNode v ni s cs)) ->
  forall n, P n.
Proof.
  intros step; fix IH 1; intros [v ni s cs]; apply step.
  induction cs as [| c cs' IHcs]; constructor; [apply IH | exact IHcs].
Qed.

Lemma same_settings_refl m : same_settings m m.
Proof. repeat split. Qed.

Lemma same_settings_trans m1 m2 m3 :
  same_settings m1 m2 -> same_settings m2 m3 -> same_settings m1 m3.
Proof.
  unfold same_settings; intros (a & b & c) (a' & b' & c'); repeat split;
    congruence.
Qed.

(** A corner that answers [Valid] holds an elevation afterwards. *)
Lemma descend_valid_found target n :
  forall p, answer (descend E target n p) = Ok Valid ->
            exists h, found (descend E target n p) = Some h.
Proof.
  induction n as [v ni s cs IH] using TraverseNode_children_ind.
  intros p; simpl; destruct v; simpl; try discriminate.
  destruct (TileId_eqb (nodeId ni) target
            || match cs with [] => true | _ :: _ => false end); simpl.
  - intros _; eexists; reflexivity.
  - destruct (32 <=? uint32 (lod target - lod (nodeId ni) - 1))%Z; simpl;
      [discriminate |].
    generalize 0%nat.
    induction IH as [| it cs' Hit _ IHcs]; intros i; simpl;
      [discriminate |].
    destruct (TileId_eqb (nodeId (trav_nodeInfo it)) _);
      [apply Hit | apply IHcs].
Qed.

Lemma CornerRequest_process_valid c m c' m' :
  CornerRequest_process E c m = (Ok Valid, c', m') ->
  exists h, corner_result c' = Some h.
Proof.
  unfold CornerRequest_process.
  destruct (corner_result c) as [r |] eqn:Hr.
  - intros H; inversion H; subst; eauto.
  - destruct (traverseRoot m) as [root |].
    + destruct (node_at root _) as [n |]; [| discriminate].
      intros H; inversion H as [[Ha Hc Hm]]; simpl.
      apply descend_valid_found; assumption.
    + destruct (trav c); discriminate.
Qed.

Lemma CornerRequest_process_settings c m :
  same_settings m (snd (CornerRequest_process E c m)).
Proof.
  unfold CornerRequest_process.
  destruct (corner_result c); [apply same_settings_refl |].
  destruct (traverseRoot m) as [root |].
  - destruct (node_at root _); [| apply same_settings_refl].
    simpl; destruct (load_requested _); repeat split.
  - destruct (trav c); apply same_settings_refl.
Qed.

(** The loop of [process] against the answers of all corners: it returns
    [Invalid] from inside as soon as one answer is [Invalid]; otherwise it
    reaches the end, with [determined] cleared by an [Indeterminate]. *)
Lemma process_corners_each cs :
  forall d m vs cs' m',
    process_each E cs m = (map Ok vs, cs', m') ->
    (In Invalid vs ->
     exists cs'' m'',
       process_corners E cs d m = (Ok (Returned Invalid), cs'', m''))
    /\ (~ In Invalid vs ->
        process_corners E cs d m
        = (Ok (Completed (d && forallb (Validity_eqb Valid) vs)), cs', m')).
Proof.
  induction cs as [| c rest IH]; intros d m vs cs' m' Heach; simpl in *.
  - destruct vs; [| discriminate]; inversion Heach; subst; simpl.
    split; [contradiction | intros _; rewrite andb_true_r; reflexivity].
  - destruct (CornerRequest_process E c m) as [[a c1] m1].
    destruct (process_each E rest m1) as [[answers rest'] m2] eqn:Hrest.
    destruct vs as [| v vs]; [discriminate |].
    simpl in Heach; inversion Heach; subst; clear Heach.
    destruct v; simpl.
    + destruct (IH false m1 vs rest' m' Hrest) as [Hinv Hcom]; split.
      * intros [Habs | Hin]; [discriminate |].
        destruct (Hinv Hin) as (cs'' & m'' & Hpc); rewrite Hpc; eauto.
      * intros Hno; rewrite Hcom by tauto; rewrite andb_false_r; reflexivity.
    + destruct (IH d m1 vs rest' m' Hrest) as [Hinv Hcom]; split.
      * intros [Habs | Hin]; [discriminate |].
        destruct (Hinv Hin) as (cs'' & m'' & Hpc); rewrite Hpc; eauto.
      * intros Hno; rewrite Hcom by tauto; reflexivity.
    + split; [eauto | intros Hno; exfalso; apply Hno; left; reflexivity].
Qed.

Lemma process_each_valid cs :
  forall m vs cs' m',
    process_each E cs m = (map Ok vs, cs', m') ->
    Forall (eq Valid) vs ->
    Forall2 (fun _ c' => exists h, corner_result c' = Some h) cs cs'.
Proof.
  induction cs as [| c rest IH]; intros m vs cs' m' Heach Hall; simpl in *.
  - inversion Heach; constructor.
  - destruct (CornerRequest_process E c m) as [[a c1] m1] eqn:Hc.
    destruct (process_each E rest m1) as [[answers rest'] m2] eqn:Hrest.
    destruct vs as [| v vs]; [discriminate |].
    simpl in Heach; inversion Heach; subst; clear Heach.
    inversion Hall; subst.
    constructor; [eapply CornerRequest_process_valid; eassumption |].
    eapply IH; eassumption.
Qed.

Lemma process_each_settings cs :
  forall m answers cs' m',
    process_each E cs m = (answers, cs', m') -> same_settings m m'.
Proof.
  induction cs as [| c rest IH]; intros m answers cs' m' H; simpl in H.
  - inversion H; apply same_settings_refl.
  - pose proof (CornerRequest_process_settings c m) as Hs.
    destruct (CornerRequest_process E c m) as [[a c1] m1].
    destruct (process_each E rest m1) as [[answers1 rest'] m3] eqn:Hr.
    inversion H; subst.
    eapply same_settings_trans; [exact Hs | eapply IH; exact Hr].
Qed.

Lemma forallb_Valid vs :
  Forall (eq Valid) vs -> forallb (Validity_eqb Valid) vs = true.
Proof. induction 1; subst; simpl; auto. Qed.

Lemma not_forallb_Valid vs :
  ~ In Invalid vs -> In Indeterminate vs ->
  forallb (Validity_eqb Valid) vs = false.
Proof.
  induction vs as [| v vs IH]; simpl; [contradiction |].
  intros Hno [-> | Hin]; [reflexivity |].
  destruct v; simpl; auto; exfalso; apply Hno; left; reflexivity.
Qed.

Lemma locate_prepared r m :
  corners r <> [] -> locate E r m = (Ok None, r, m).
Proof. unfold locate; destruct (corners r); [congruence | reflexivity]. Qed.

(** The loop of [process] up to the first corner that answers [Invalid]:
    the corners before it answer on the maps their predecessors leave, the
    corners after it are not reached. *)
Lemma process_corners_first_Invalid pre :
  forall d m vs pre' m1 c c' m1' post,
    process_each E pre m = (map Ok vs, pre', m1) ->
    ~ In Invalid vs ->
    CornerRequest_process E c m1 = (Ok Invalid, c', m1') ->
    process_corners E (pre ++ c :: post) d m
    = (Ok (Returned Invalid), pre' ++ c' :: post, m1').
Proof.
  induction pre as [| c0 rest IH];
    intros d m vs pre' m1 c c' m1' post Heach Hno Hc; simpl in *.
  - inversion Heach; subst; rewrite Hc; reflexivity.
  - destruct (CornerRequest_process E c0 m) as [[a c1] m0].
    destruct (process_each E rest m0) as [[answers rest'] m3] eqn:Hrest.
    destruct vs as [| v vs]; [discriminate |].
    simpl in Heach; inversion Heach; subst; clear Heach.
    assert (Hno' : ~ In Invalid vs) by (intros Hin; apply Hno; right; exact Hin).
    destruct v.
    + rewrite (IH false _ _ _ _ _ _ _ post Hrest Hno' Hc); reflexivity.
    + rewrite (IH d _ _ _ _ _ _ _ post Hrest Hno' Hc); reflexivity.
    + exfalso; apply Hno; left; reflexivity.
Qed.

(** C1. For a request whose four corners are prepared and whose result is
    not set, one call of [process] works through the corners in order,
    each on the map its predecessors left.  It returns [Invalid] when a
    corner answers [Invalid], the corners before it having answered
    otherwise; the corners after that one are not processed.  Otherwise,
    all four having answered, it returns [Indeterminate] when one of them
    answers [Indeterminate].  Otherwise, the four answers being [Valid]
    and the corners holding the elevations h0, h1, h2, h3 in their order,
    it sets the result to the third coordinate of the conversion, from the
    srs of the sampled node to the navigation srs, of the point [sds] at
    the height
    interpolate (interpolate h2 h3 wx) (interpolate h0 h1 wx) wy,
    (wx, wy) being the weights of the request, and returns [Valid].  In
    each case the request holds the corners as processed and the map is
    the one the last processed corner left. *)
Theorem HeightRequest_process_combines_corners
  (r : HeightRequest) (m : MapImpl) (ni : NodeInfo)
  (res : Result Validity) (r' : HeightRequest) (m2 : MapImpl) :
  List.length (corners r) = 4%nat ->
  nodeInfo r = Some ni ->
  result r = None ->
  HeightRequest_process E r m = (res, r', m2) ->
  (forall pre c post vs pre' m1 c' m1',
      corners r = pre ++ c :: post ->
      process_each E pre m = (map Ok vs, pre', m1) ->
      ~ In Invalid vs ->
      CornerRequest_process E c m1 = (Ok Invalid, c', m1') ->
      res = Ok Invalid /\ result r' = None
      /\ corners r' = pre' ++ c' :: post /\ m2 = m1')
  /\ (forall vs cs' m',
         process_each E (corners r) m = (map Ok vs, cs', m') ->
         ~ In Invalid vs -> In Indeterminate vs ->
         res = Ok Indeterminate /\ result r' = None
         /\ corners r' = cs' /\ m2 = m')
  /\ (forall vs cs' m',
         process_each E (corners r) m = (map Ok vs, cs', m') ->
         Forall (eq Valid) vs ->
         exists h0 h1 h2 h3,
           map corner_result cs' = [Some h0; Some h1; Some h2; Some h3]
           /\ forall q,
               convert E
                 (vec2to3 (sds r)
                    (interpolate E
                       (interpolate E h2 h3 (u0 (interpol r)))
                       (interpolate E h0 h1 (u0 (interpol r)))
                       (u1 (interpol r))))
                 (srs ni) (navigationSrs (mapConfig m)) = Ok q ->
               res = Ok Valid /\ result r' = Some (v2 q)
               /\ corners r' = cs' /\ m2 = m').
Proof.
  intros Hlen Hni Hres Hproc.
  unfold HeightRequest_process in Hproc.
  rewrite Hres, locate_prepared in Hproc
    by (destruct (corners r); discriminate).
  cbv beta iota in Hproc.
  split; [| split].
  - intros pre c post vs pre' m1 c' m1' Hcs Heach Hno Hc.
    rewrite Hcs in Hproc.
    rewrite (process_corners_first_Invalid pre true m vs pre' m1 c c' m1'
               post Heach Hno Hc) in Hproc.
    inversion Hproc; subst; simpl; auto.
  - intros vs cs' m' Heach Hno Hin.
    destruct (process_corners_each _ true m vs cs' m' Heach) as [_ Hcom].
    rewrite (Hcom Hno) in Hproc.
    rewrite (not_forallb_Valid _ Hno Hin) in Hproc; simpl in Hproc.
    inversion Hproc; subst; simpl; auto.
  - intros vs cs' m' Heach Hall.
    destruct (process_corners_each _ true m vs cs' m' Heach) as [_ Hcom].
    assert (Hno : ~ In Invalid vs).
    { intros Hin; rewrite Forall_forall in Hall.
      specialize (Hall _ Hin); discriminate. }
    rewrite (Hcom Hno), (forallb_Valid _ Hall) in Hproc; simpl in Hproc.
    pose proof (process_each_valid _ _ _ _ _ Heach Hall) as Hf.
    destruct (corners r) as [| c0 [| c1 [| c2 [| c3 [| c4 cs4]]]]];
      try discriminate.
    inversion Hf as [| ? k0 ? ? [h0 H0] Hf1]; subst.
    inversion Hf1 as [| ? k1 ? ? [h1 H1] Hf2]; subst.
    inversion Hf2 as [| ? k2 ? ? [h2 H2] Hf3]; subst.
    inversion Hf3 as [| ? k3 ? ? [h3 H3] Hf4]; subst.
    inversion Hf4; subst.
    exists h0, h1, h2, h3; split; [simpl; congruence |].
    intros q Hq.
    assert (Hm : mapConfig m' = mapConfig m)
      by apply (process_each_settings _ _ _ _ _ Heach).
    unfold find_height, bilinear in Hproc; simpl in Hproc.
    rewrite Hni, H0, H1, H2, H3, Hm, Hq in Hproc.
    inversion Hproc; subst; simpl; auto.
Qed.

End HeightRequestProperties.

(** ** The height queue *)

Section QueueProperties.

Variable E : Collaborators.

Lemma process_corners_settings cs :
  forall d m, same_settings m (snd (process_corners E cs d m)).
Proof.
  induction cs as [| c rest IH]; intros d m; simpl;
    [apply same_settings_refl |].
  pose proof (CornerRequest_process_settings E c m) as Hs.
  destruct (CornerRequest_process E c m) as [[[[] |] c1] m1]; simpl in *;
    try exact Hs.
  - specialize (IH false m1).
    destruct (process_corners E rest false m1) as [[x rest'] m2]; simpl in *.
    eapply same_settings_trans; eassumption.
  - specialize (IH d m1).
    destruct (process_corners E rest d m1) as [[x rest'] m2]; simpl in *.
    eapply same_settings_trans; eassumption.
Qed.

Lemma locate_settings r m : same_settings m (snd (locate E r m)).
Proof.
  unfold locate; destruct (corners r); [| apply same_settings_refl].
  destruct (findInfoNavRoot E m (navPos r)) as [[ni0 sds'] | e].
  - destruct (findInfoSdsSampled E m ni0 sds') as [ni | e]; simpl.
    + repeat split.
    + destruct (is_runtime_error e); apply same_settings_refl.
  - destruct (is_runtime_error e); apply same_settings_refl.
Qed.

(** [process] keeps the point and the offset the request was made with. *)
Lemma locate_keeps r m :
  navPos (snd (fst (locate E r m))) = navPos r
  /\ resetOffset (snd (fst (locate E r m))) = resetOffset r
  /\ result (snd (fst (locate E r m))) = result r.
Proof.
  unfold locate; destruct (corners r); [| repeat split].
  destruct (findInfoNavRoot E m (navPos r)) as [[ni0 sds'] | e].
  - destruct (findInfoSdsSampled E m ni0 sds') as [ni | e]; simpl.
    + repeat split.
    + destruct (is_runtime_error e); repeat split.
  - destruct (is_runtime_error e); repeat split.
Qed.

Lemma HeightRequest_process_settings r m :
  same_settings m (snd (HeightRequest_process E r m)).
Proof.
  unfold HeightRequest_process.
  destruct (result r); [apply same_settings_refl |].
  pose proof (locate_settings r m) as Hl.
  destruct (locate E r m) as [[[[v |] | e] r1] m1]; simpl in *; try exact Hl.
  pose proof (process_corners_settings (corners r1) true m1) as Hc.
  destruct (process_corners E (corners r1) true m1)
    as [[[[v | []] | e] cs] m2]; simpl in *;
    try (eapply same_settings_trans; eassumption).
  destruct (find_height E _ m2); simpl;
    eapply same_settings_trans; eassumption.
Qed.

Lemma HeightRequest_process_keeps r m :
  navPos (snd (fst (HeightRequest_process E r m))) = navPos r
  /\ resetOffset (snd (fst (HeightRequest_process E r m))) = resetOffset r.
Proof.
  unfold HeightRequest_process.
  destruct (result r); [repeat split |].
  pose proof (locate_keeps r m) as (Hn & Ho & _).
  destruct (locate E r m) as [[[[v |] | e] r1] m1]; simpl in *;
    try (split; assumption).
  destruct (process_corners E (corners r1) true m1)
    as [[[[v | []] | e] cs] m2]; simpl; try (split; assumption).
  destruct (find_height E _ m2); simpl; split; assumption.
Qed.

Lemma locate_returns_Invalid r m v r1 m1 :
  locate E r m = (Ok (Some v), r1, m1) -> v = Invalid.
Proof.
  unfold locate; destruct (corners r); [| discriminate].
  destruct (findInfoNavRoot E m (navPos r)) as [[ni0 sds'] | e].
  - destruct (findInfoSdsSampled E m ni0 sds') as [ni | e]; [discriminate |].
    destruct (is_runtime_error e); intros H; inversion H; reflexivity.
  - destruct (is_runtime_error e); intros H; inversion H; reflexivity.
Qed.

Lemma process_corners_returns_Invalid cs :
  forall d m v cs' m',
    process_corners E cs d m = (Ok (Returned v), cs', m') -> v = Invalid.
Proof.
  induction cs as [| c rest IH]; intros d m v cs' m'; simpl;
    [discriminate |].
  destruct (CornerRequest_process E c m) as [[[[] |] c1] m1].
  - destruct (process_corners E rest false m1) as [[x rest'] m2] eqn:Hx.
    intros H; inversion H; subst; eapply IH; eassumption.
  - destruct (process_corners E rest d m1) as [[x rest'] m2] eqn:Hx.
    intros H; inversion H; subst; eapply IH; eassumption.
  - intros H; inversion H; reflexivity.
  - discriminate.
Qed.

(** A request that answers [Valid] holds its height. *)
Lemma HeightRequest_process_valid_result r m r' m' :
  HeightRequest_process E r m = (Ok Valid, r', m') ->
  exists nh, result r' = Some nh.
Proof.
  unfold HeightRequest_process.
  destruct (result r) as [h |] eqn:Hr.
  - intros H; inversion H; subst; eauto.
  - destruct (locate E r m) as [[[[v |] | e] r1] m1] eqn:Hl.
    + intros H; inversion H; subst.
      apply locate_returns_Invalid in Hl; discriminate.
    + destruct (process_corners E (corners r1) true m1)
        as [[[[v | []] | e] cs] m2] eqn:Hpc; try discriminate.
      * intros H; inversion H; subst.
        apply process_corners_returns_Invalid in Hpc; discriminate.
      * destruct (find_height E _ m2); [| discriminate].
        intros H; inversion H; subst; simpl; eauto.
    + discriminate.
Qed.

(** What [checkPanZQueue] does with a non-empty queue, by the answer of
    the request at its front. *)
Lemma checkPanZQueue_front m task rest res task' m1 :
  panZQueue (navigation m) = task :: rest ->
  HeightRequest_process E task m = (res, task', m1) ->
  checkPanZQueue E m =
  match res with
  | Throw e =>
      (Throw e, set_navigation m1 (set_panZQueue (navigation m) (task' :: rest)))
  | Ok Indeterminate =>
      (Ok tt, set_navigation m1 (set_panZQueue (navigation m) (task' :: rest)))
  | Ok Invalid =>
      (Ok tt, set_navigation m1 (set_panZQueue (navigation m) rest))
  | Ok Valid =>
      match result task' with
      | Some nh =>
          (Ok tt, set_navigation m1 (apply_height task' nh rest (navigation m)))
      | None =>
          (Throw undefined_behaviour,
           set_navigation m1 (set_panZQueue (navigation m) (task' :: rest)))
      end
  end.
Proof.
  intros Hq Hp; unfold checkPanZQueue; rewrite Hq, Hp.
  pose proof (HeightRequest_process_settings task m) as (Hn & _ & _).
  rewrite Hp in Hn; simpl in Hn; rewrite Hn; reflexivity.
Qed.

(** C2. Each tick drains one step of the height queue, as its first act.
    With a non-empty queue whose front request answers [Valid] with height
    [nh]: the height of the target becomes [nh + resetOffset] when the
    request carries an offset (absolute), or grows by [nh - lastPanZShift]
    when it does not (relative); [lastPanZShift] becomes [nh]; the front is
    popped.  When it answers [Invalid], the front is popped and nothing
    else changes in the navigation state.  When it answers [Indeterminate],
    the queue keeps the same requests in the same order, the front one
    being the request after this step of its work. *)
Theorem checkPanZQueue_drains_one_step
  (m : MapImpl) (task : HeightRequest) (rest : list HeightRequest)
  (v : Validity) (task' : HeightRequest) (m1 : MapImpl) :
  panZQueue (navigation m) = task :: rest ->
  HeightRequest_process E task m = (Ok v, task', m1) ->
  let n := navigation m in
  let n' := navigation (snd (checkPanZQueue E m)) in
  updateNavigation E m
  = (let m2 := snd (checkPanZQueue E m) in
     solve_and_move E (before_solver E m2) (position (pos m2))
                    (orientation (pos m2)))
  /\ fst (checkPanZQueue E m) = Ok tt
  /\ match v with
     | Valid =>
         exists nh,
           result task' = Some nh
           /\ panZQueue n' = rest
           /\ lastPanZShift n' = Some nh
           /\ ((resetOffset task =? resetOffset task) = true ->
               targetPoint n' = set_v2 (targetPoint n) (nh + resetOffset task))
           /\ ((resetOffset task =? resetOffset task) = false ->
               forall l, lastPanZShift n = Some l ->
               targetPoint n'
               = set_v2 (targetPoint n) (v2 (targetPoint n) + (nh - l)))
     | Invalid =>
         n' = set_panZQueue n rest
         /\ mapConfig (snd (checkPanZQueue E m)) = mapConfig m
     | Indeterminate =>
         n' = set_panZQueue n (task' :: rest)
         /\ navPos task' = navPos task
         /\ resetOffset task' = resetOffset task
     end.
Proof.
  intros Hq Hp n n'; subst n n'.
  pose proof (checkPanZQueue_front _ _ _ _ _ _ Hq Hp) as Hc.
  pose proof (HeightRequest_process_keeps task m) as (Hnav & Hoff).
  pose proof (HeightRequest_process_settings task m) as (_ & Hcfg & _).
  rewrite Hp in Hnav, Hoff, Hcfg; simpl in Hnav, Hoff, Hcfg.
  assert (Hone : fst (checkPanZQueue E m) = Ok tt).
  { rewrite Hc; destruct v; try reflexivity.
    destruct (HeightRequest_process_valid_result _ _ _ _ Hp) as [nh Hnh].
    rewrite Hnh; reflexivity. }
  split; [| split; [exact Hone |]].
  - unfold updateNavigation.
    destruct (checkPanZQueue E m) as [[[] | e] m2]; simpl in *;
      [reflexivity | discriminate].
  - destruct v.
    + rewrite Hc; simpl; auto.
    + destruct (HeightRequest_process_valid_result _ _ _ _ Hp) as [nh Hnh].
      exists nh; rewrite Hc, Hnh; simpl; unfold apply_height; rewrite Hoff.
      split; [reflexivity |].
      destruct (resetOffset task =? resetOffset task).
      * repeat split; intros; discriminate.
      * destruct (lastPanZShift (navigation m)) as [l |];
          repeat split; try discriminate.
        intros _ l' Hl; inversion Hl; subst; reflexivity.
    + rewrite Hc; simpl; split; [reflexivity | exact Hcfg].
Qed.

(** C9. When a request without offset (relative) answers [Valid] while
    [lastPanZShift] is not set, as for the first request after
    initialisation, the height of the target stays as it is,
    [lastPanZShift] becomes the sampled height and the request is popped;
    once a sample is stored, a relative request moves the height of the
    target by its difference from the stored sample. *)
Theorem checkPanZQueue_first_relative_sample
  (m : MapImpl) (task : HeightRequest) (rest : list HeightRequest)
  (task' : HeightRequest) (m1 : MapImpl) :
  panZQueue (navigation m) = task :: rest ->
  HeightRequest_process E task m = (Ok Valid, task', m1) ->
  (resetOffset task =? resetOffset task) = false ->
  let n := navigation m in
  let n' := navigation (snd (checkPanZQueue E m)) in
  exists nh,
    result task' = Some nh
    /\ lastPanZShift n' = Some nh
    /\ panZQueue n' = rest
    /\ (lastPanZShift n = None -> targetPoint n' = targetPoint n)
    /\ (forall l, lastPanZShift n = Some l ->
        targetPoint n'
        = Vec3 (v0 (targetPoint n)) (v1 (targetPoint n))
               (v2 (targetPoint n) + (nh - l))).
Proof.
  intros Hq Hp Hrel n n'; subst n n'.
  pose proof (HeightRequest_process_keeps task m) as (_ & Hoff).
  rewrite Hp in Hoff; simpl in Hoff.
  destruct (HeightRequest_process_valid_result _ _ _ _ Hp) as [nh Hnh].
  exists nh.
  rewrite (checkPanZQueue_front _ _ _ _ _ _ Hq Hp), Hnh; simpl.
  unfold apply_height; rewrite Hoff, Hrel.
  destruct (lastPanZShift (navigation m)) as [l |]; repeat split;
    try discriminate.
  intros l' Hl; inversion Hl; subst; reflexivity.
Qed.

End QueueProperties.

(** ** The tick and the gestures *)

(** Walks through [solve_and_move] up to its normal end: [by_throw] closes
    the goals of the three places where it throws; the goal of the normal
    end is left with the wrapped position and the orientation before
    normalization introduced as hypotheses-to-be. *)
Ltac through_solve_and_move by_throw :=
  let p3 := fresh "p3" in
  let r3 := fresh "r3" in
  unfold solve_and_move;
  match goal with
  | |- context [motion_inputs ?E ?m ?p] =>
      destruct (motion_inputs E m p) as [[[? ?] ?] | ?]; [| by_throw]
  end;
  match goal with
  | |- context [navigationSolve ?E ?o ?t ?dt ?f ?h ?v ?x ?dx ?r ?c] =>
      destruct (navigationSolve E o t dt f h v x dx r c) as [[[? ?] ?] ?]
  end;
  match goal with
  | |- context [horizontal_move ?E ?m ?p ?r ?h1 ?h2 ?a1 ?a2] =>
      destruct (horizontal_move E m p r h1 h2 a1 a2) as [[? r3] | ?];
      [| by_throw]
  end;
  simpl;
  match goal with
  | |- context [apply_periodicity ?E ?c ?p] =>
      destruct (apply_periodicity E c p) as [p3 | ?]; [| by_throw]
  end;
  revert p3 r3.

Section NavigationProperties.

Variable E : Collaborators.

(** [checkPanZQueue] touches the height of the target, the last sample and
    the queue, which it never makes longer. *)
Lemma checkPanZQueue_frame m :
  let m' := snd (checkPanZQueue E m) in
  let n := navigation m in
  let n' := navigation m' in
  mapConfig m' = mapConfig m /\ options m' = options m
  /\ geographicMode n' = geographicMode n
  /\ v0 (targetPoint n') = v0 (targetPoint n)
  /\ v1 (targetPoint n') = v1 (targetPoint n)
  /\ autoRotation n' = autoRotation n
  /\ (List.length (panZQueue n') <= List.length (panZQueue n))%nat.
Proof.
  cbv zeta.
  destruct (panZQueue (navigation m)) as [| task rest] eqn:Hq.
  - unfold checkPanZQueue; rewrite Hq; simpl; rewrite Hq; repeat split;
      auto.
  - destruct (HeightRequest_process E task m) as [[res task'] m1] eqn:Hp.
    rewrite (checkPanZQueue_front E _ _ _ _ _ _ Hq Hp).
    pose proof (HeightRequest_process_settings E task m) as (_ & Hc & Ho).
    rewrite Hp in Hc, Ho; simpl in Hc, Ho.
    destruct res as [[] | e]; simpl; try (repeat split; auto; lia).
    destruct (result task') as [nh |]; simpl; try (repeat split; auto; lia).
    unfold apply_height.
    destruct (resetOffset task' =? resetOffset task');
      [| destruct (lastPanZShift (navigation m))]; simpl;
      repeat split; auto; lia.
Qed.

Lemma queue_set_back_length {A} (q : list A) (h : A) :
  q <> [] -> List.length (queue_set_back q h) = List.length q.
Proof.
  intros Hq; unfold queue_set_back.
  destruct (exists_last Hq) as (q' & a & ->).
  rewrite removelast_last, !length_app; reflexivity.
Qed.

Lemma enqueue_height_request_length n p :
  (List.length (panZQueue n) <= 2 ->
   List.length (panZQueue (enqueue_height_request n p)) <= 2)%nat.
Proof.
  intros Hle; unfold enqueue_height_request.
  destruct (Nat.ltb_spec (List.length (panZQueue n)) 2); simpl.
  - unfold queue_push; rewrite length_app; simpl; lia.
  - rewrite queue_set_back_length; [lia |].
    destruct (panZQueue n); simpl in *; [lia | discriminate].
Qed.

(** The part of the tick after the solver changes the queue only by its
    enqueue at the end. *)
Lemma solve_and_move_queue m p r :
  let q' := panZQueue (navigation (snd (solve_and_move E m p r))) in
  q' = panZQueue (navigation m)
  \/ exists p3, q' = panZQueue (enqueue_height_request (navigation m) p3).
Proof.
  cbv zeta; through_solve_and_move ltac:(left; reflexivity).
  intros p3 r3; right; exists p3; simpl; unfold enqueue_height_request; simpl.
  destruct (_ <? 2)%nat; reflexivity.
Qed.

Lemma before_solver_queue m :
  (List.length (panZQueue (navigation m)) <= 2 ->
   List.length (panZQueue (navigation (before_solver E m))) <= 2)%nat.
Proof.
  intros Hle; unfold before_solver, auto_rotation, geographic_navigation,
    limit_zoom, ground_floating_position.
  destruct (heightMode (pos m)); simpl.
  - destruct (navigationSrsType (mapConfig m)); simpl; auto.
    unfold limit_latitude, check_navigation_mode; simpl.
    destruct (geographicNavMode (options m)); simpl;
      try destruct (_ <? _); simpl;
      try destruct (geographicMode (navigation m)); simpl; auto.
  - destruct (navigationSrsType (mapConfig m)); simpl; auto.
    unfold limit_latitude, check_navigation_mode; simpl.
    destruct (geographicNavMode (options m)); simpl;
      try destruct (_ <? _); simpl;
      try destruct (geographicMode (navigation m)); simpl; auto.
Qed.

(** C5. The height queue never holds more than two requests: the enqueue
    at the end of a tick, [resetPositionAltitude], [setPoint],
    [checkPanZQueue] and the tick as a whole keep its length at most 2; and
    on a queue of two requests the enqueue at the end of a tick puts the
    fresh request in place of the last one. *)
Theorem panZQueue_at_most_two (m : MapImpl) :
  (List.length (panZQueue (navigation m)) <= 2)%nat ->
  (forall p,
      List.length (panZQueue (enqueue_height_request (navigation m) p)) <= 2)%nat
  /\ (forall k,
      List.length (panZQueue (navigation (resetPositionAltitude m k))) <= 2)%nat
  /\ (forall point type,
      List.length (panZQueue (navigation (setPoint m point type))) <= 2)%nat
  /\ (List.length (panZQueue (navigation (snd (checkPanZQueue E m)))) <= 2)%nat
  /\ (List.length (panZQueue (navigation (snd (updateNavigation E m)))) <= 2)%nat
  /\ (forall a b p,
      panZQueue (navigation m) = [a; b] ->
      panZQueue (enqueue_height_request (navigation m) p)
      = [a; HeightRequest_new (vec3to2 p)]).
Proof.
  intros Hle; repeat split.
  - intros p; apply enqueue_height_request_length; exact Hle.
  - intros k; simpl; lia.
  - intros point type; unfold setPoint; simpl.
    destruct type; simpl; lia.
  - pose proof (checkPanZQueue_frame m) as H; cbv zeta in H.
    destruct H as (_ & _ & _ & _ & _ & _ & H); lia.
  - unfold updateNavigation.
    pose proof (checkPanZQueue_frame m) as H; cbv zeta in H.
    destruct H as (_ & _ & _ & _ & _ & _ & H).
    destruct (checkPanZQueue E m) as [[[] | e] m1]; simpl in *; [| lia].
    assert (H1 : (List.length (panZQueue (navigation (before_solver E m1)))
                  <= 2)%nat) by (apply before_solver_queue; lia).
    destruct (solve_and_move_queue (before_solver E m1) (position (pos m1))
                                   (orientation (pos m1))) as [-> | [p3 ->]];
      [exact H1 | apply enqueue_height_request_length; exact H1].
  - intros a b p Hq; unfold enqueue_height_request; rewrite Hq; reflexivity.
Qed.

(** C7. [setPoint] with [Instant] sets the target and the navigation type,
    leaves [lastPanZShift] not set and the height queue empty; with another
    type it sets the target and the navigation type and leaves
    [lastPanZShift] and the height queue as they are. *)
Theorem setPoint_effects (m : MapImpl) (point : vec3) (type : NavigationType) :
  let n := navigation m in
  let n' := navigation (setPoint m point type) in
  targetPoint n' = point
  /\ nav_type n' = type
  /\ (type = Instant -> lastPanZShift n' = None /\ panZQueue n' = [])
  /\ (type <> Instant ->
      lastPanZShift n' = lastPanZShift n /\ panZQueue n' = panZQueue n).
Proof.
  cbv zeta; unfold setPoint; destruct type; simpl;
    (split; [reflexivity | split; [reflexivity | split; intros Ht]]);
    try discriminate; try (exfalso; apply Ht; reflexivity);
    split; reflexivity.
Qed.

(** C10. [setPoint], [setRotation] and [setViewExtent] each set
    [autoRotation] to 0, whatever their arguments, besides the target they
    set; so do [rotate], [zoom] and a [pan] that returns. *)
Theorem setters_clear_autoRotation
  (m : MapImpl) (point euler value : vec3) (viewExtent amount : double)
  (type : NavigationType) :
  (autoRotation (navigation (setPoint m point type)) = 0
   /\ targetPoint (navigation (setPoint m point type)) = point)
  /\ (autoRotation (navigation (setRotation E m euler type)) = 0
      /\ changeRotation (navigation (setRotation E m euler type))
         = angularDiff3 E (orientation (pos m)) euler)
  /\ (autoRotation (navigation (setViewExtent m viewExtent type)) = 0
      /\ targetViewExtent (navigation (setViewExtent m viewExtent type))
         = viewExtent)
  /\ autoRotation (navigation (rotate m value)) = 0
  /\ autoRotation (navigation (zoom E m amount)) = 0
  /\ (fst (pan E m value) = Ok tt ->
      autoRotation (navigation (snd (pan E m value))) = 0).
Proof.
  repeat split.
  - unfold setPoint; destruct type; reflexivity.
  - unfold setPoint; destruct type; reflexivity.
  - unfold pan.
    destruct (navigationSrsType (mapConfig m)); simpl;
      try discriminate; try reflexivity.
    destruct (geographicMode (navigation m)); simpl; try discriminate;
      destruct (_ <? 150); reflexivity.
Qed.

(** The orientation a tick commits is the normalized one. *)
Lemma updateNavigation_commits m m' :
  updateNavigation E m = (Ok tt, m') ->
  exists r, orientation (pos m') = normalize_rotation E r.
Proof.
  unfold updateNavigation.
  destruct (checkPanZQueue E m) as [[[] | e] m1]; [| discriminate].
  through_solve_and_move ltac:(discriminate).
  intros p3 r3 H; inversion H; subst; clear H.
  exists r3; reflexivity.
Qed.

(** C4. After a tick, each of the three components of the committed
    orientation lies in [0, 360) and the pitch lies in [270, 350], for the
    [normalizeAngle] and the [clamp] of the spec. *)
Theorem updateNavigation_orientation_in_range (m m' : MapImpl) :
  normalizeAngle_in_range E ->
  clamp_between E ->
  updateNavigation E m = (Ok tt, m') ->
  in_0_360 (v0 (orientation (pos m')))
  /\ in_0_360 (v1 (orientation (pos m')))
  /\ in_0_360 (v2 (orientation (pos m')))
  /\ in_270_350 (v1 (orientation (pos m'))).
Proof.
  intros Hnorm Hclamp Htick.
  destruct (updateNavigation_commits _ _ Htick) as [r ->].
  unfold normalize_rotation; simpl.
  destruct (Hnorm (v0 r)) as [Ha0 Hb0].
  destruct (Hnorm (v1 r)) as [Ha1 Hb1].
  destruct (Hnorm (v2 r)) as [Ha2 Hb2].
  assert (Hpitch : in_0_360 (clamp E (normalizeAngle E (v1 r)) 270 350)
                   /\ in_270_350 (clamp E (normalizeAngle E (v1 r)) 270 350)).
  { destruct (Hclamp (normalizeAngle E (v1 r)) 270 350
                     (leb_true_not_nan _ _ Ha1) eq_refl)
      as [-> | [-> | (-> & Hlo & Hhi)]].
    - repeat split.
    - repeat split.
    - repeat split; assumption. }
  unfold in_0_360 at 1 3; tauto.
Qed.

Lemma limit_latitude_geographicMode o n :
  geographicMode (limit_latitude E o n) = geographicMode n.
Proof.
  unfold limit_latitude; destruct (geographicMode n) eqn:Hg; simpl; auto.
Qed.

Lemma check_navigation_mode_geographicMode o n :
  geographicMode (check_navigation_mode o n)
  = match geographicNavMode o with
    | Dynamic =>
        if navigationLatitudeThreshold o - 1e-5 <? abs (v1 (targetPoint n))
        then Free
        else geographicMode n
    | g => g
    end.
Proof.
  unfold check_navigation_mode.
  destruct (geographicNavMode o); try reflexivity.
  destruct (_ <? _); reflexivity.
Qed.

Lemma before_solver_geographicMode m :
  geographicMode (navigation (before_solver E m))
  = match navigationSrsType (mapConfig m) with
    | geographic =>
        match geographicNavMode (options m) with
        | Dynamic =>
            if navigationLatitudeThreshold (options m) - 1e-5
               <? abs (v1 (targetPoint (navigation m)))
            then Free
            else geographicMode (navigation m)
        | g => g
        end
    | _ => geographicMode (navigation m)
    end.
Proof.
  unfold before_solver, auto_rotation, geographic_navigation, limit_zoom,
    ground_floating_position.
  destruct (heightMode (pos m)); simpl;
    (destruct (navigationSrsType (mapConfig m)); simpl; auto;
     rewrite limit_latitude_geographicMode,
       check_navigation_mode_geographicMode; reflexivity).
Qed.

Lemma before_solver_settings m :
  navigationSrsType (mapConfig (before_solver E m))
  = navigationSrsType (mapConfig m)
  /\ options (before_solver E m) = options m.
Proof.
  unfold before_solver, auto_rotation, geographic_navigation, limit_zoom,
    ground_floating_position.
  destruct (heightMode (pos m)); simpl;
    destruct (navigationSrsType (mapConfig m)) eqn:Ht; simpl;
    rewrite ?Ht; split; reflexivity.
Qed.

Lemma solve_and_move_geographicMode m p r :
  geographicMode (navigation (snd (solve_and_move E m p r)))
  = geographicMode (navigation m).
Proof.
  through_solve_and_move ltac:(reflexivity).
  intros p3 r3; simpl; unfold enqueue_height_request; simpl.
  destruct (_ <? 2)%nat; reflexivity.
Qed.

(** No entry point makes the mode [Dynamic]. *)
Lemma perform_keeps_mode_resolved m c :
  geographicMode (navigation m) <> Dynamic ->
  geographicMode (navigation (perform E m c)) <> Dynamic.
Proof.
  intros Hm; destruct c; simpl; auto.
  - unfold updateNavigation.
    pose proof (checkPanZQueue_frame m) as H; cbv zeta in H.
    destruct H as (_ & _ & Hg & _).
    destruct (checkPanZQueue E m) as [[[] | e] m1]; simpl in *;
      [| congruence].
    rewrite solve_and_move_geographicMode, before_solver_geographicMode.
    destruct (navigationSrsType (mapConfig m1)); try congruence.
    destruct (geographicNavMode (options m1)); try discriminate.
    destruct (_ <? _); [discriminate | congruence].
  - unfold pan.
    destruct (navigationSrsType (mapConfig m)); simpl; auto.
    destruct (geographicMode (navigation m)) eqn:Hg; simpl; auto;
      destruct (_ <? 150); simpl; rewrite Hg; discriminate.
  - unfold rotate; simpl.
    destruct (geographicNavMode (options m)); simpl; auto; discriminate.
  - unfold setPoint; destruct type; simpl; auto.
  - unfold resetNavigationGeographicMode.
    destruct (geographicNavMode (options m)); simpl; discriminate.
Qed.

Lemma perform_all_keeps_mode_resolved calls :
  forall m,
    geographicMode (navigation m) <> Dynamic ->
    geographicMode (navigation (perform_all E m calls)) <> Dynamic.
Proof.
  induction calls as [| c calls IH]; intros m Hm; simpl; [exact Hm |].
  apply IH, perform_keeps_mode_resolved, Hm.
Qed.

(** C3, as the code has it.  In a geographic navigation srs, at the start
    of a tick: with the configured mode [Dynamic], the mode becomes [Free]
    when the absolute latitude of the target exceeds the threshold less
    1e-5, and otherwise stays what it was ([Azimuthal] since construction or
    the last [resetNavigationGeographicMode], [Free] since the last
    promotion or [rotate]); with another configured mode, the mode becomes
    the configured one.  The mode is not [Dynamic] when the solver is
    called, in any tick after any calls of the entry points on a freshly
    constructed navigation state. *)
Theorem geographicMode_at_solver (m ms : MapImpl) :
  solver_state E m = Ok ms ->
  let o := options m in
  let near_pole :=
    navigationLatitudeThreshold o - 1e-5
    <? abs (v1 (targetPoint (navigation m))) in
  (navigationSrsType (mapConfig m) = geographic ->
   (geographicNavMode o = Dynamic ->
    (near_pole = true -> geographicMode (navigation ms) = Free)
    /\ (near_pole = false ->
        geographicMode (navigation ms) = geographicMode (navigation m)))
   /\ (geographicNavMode o <> Dynamic ->
       geographicMode (navigation ms) = geographicNavMode o))
  /\ (geographicMode (navigation m) <> Dynamic ->
      geographicMode (navigation ms) <> Dynamic)
  /\ (forall m0 calls,
         navigation m0 = Navigation_new ->
         m = perform_all E m0 calls ->
         geographicMode (navigation ms) <> Dynamic).
Proof.
  intros Hs; cbv zeta.
  unfold solver_state in Hs.
  pose proof (checkPanZQueue_frame m) as H; cbv zeta in H.
  destruct H as (Hc & Ho & Hg & _ & Hy & _).
  destruct (checkPanZQueue E m) as [[[] | e] m1]; [| discriminate].
  simpl in *; inversion Hs; subst ms; clear Hs.
  rewrite before_solver_geographicMode, Hc, Ho, Hg, Hy.
  assert (Hkeep : geographicMode (navigation m) <> Dynamic ->
                  match navigationSrsType (mapConfig m) with
                  | geographic =>
                      match geographicNavMode (options m) with
                      | Dynamic =>
                          if navigationLatitudeThreshold (options m) - 1e-5
                             <? abs (v1 (targetPoint (navigation m)))
                          then Free
                          else geographicMode (navigation m)
                      | g => g
                      end
                  | _ => geographicMode (navigation m)
                  end <> Dynamic).
  { intros Hm; destruct (navigationSrsType (mapConfig m)); auto.
    destruct (geographicNavMode (options m)); try discriminate.
    destruct (_ <? _); [discriminate | exact Hm]. }
  split; [| split].
  - intros ->; split.
    + intros ->; split; intros ->; reflexivity.
    + destruct (geographicNavMode (options m)); intros Hd; try reflexivity.
      exfalso; apply Hd; reflexivity.
  - exact Hkeep.
  - intros m0 calls Hnew ->; apply Hkeep.
    apply perform_all_keeps_mode_resolved; rewrite Hnew; discriminate.
Qed.

(** C6, as the code has it.  In a geographic navigation srs a pan sets the
    target to the destination it computes when the jump from the current
    position is less than 150, and leaves the target as it is otherwise,
    that is for a jump of 150 or more or one that does not compare; the
    jump is the absolute difference of longitudes in [Azimuthal] mode and
    the arc distance in [Free] mode.  Either way the pan clears
    [autoRotation] and sets the navigation type to the configured one. *)
Theorem pan_geographic_jump (m : MapImpl) (value : vec3) :
  navigationSrsType (mapConfig m) = geographic ->
  let n := navigation m in
  let n' := navigation (snd (pan E m value)) in
  let dest := pan_destination E n (pan_move E m value) in
  let jump :=
    match geographicMode n with
    | Azimuthal => abs (angularDiff E (v0 (position (pos m))) (v0 dest))
    | _ => geoArcDist E (position (pos m)) dest
    end in
  geographicMode n <> Dynamic ->
  fst (pan E m value) = Ok tt
  /\ ((jump <? 150) = true -> targetPoint n' = dest)
  /\ ((jump <? 150) = false -> targetPoint n' = targetPoint n)
  /\ autoRotation n' = 0
  /\ nav_type n' = navigationType (options m).
Proof.
  intros Hgeo; cbv zeta; intros Hmode.
  unfold pan; rewrite Hgeo.
  destruct (geographicMode (navigation m)) eqn:Hg;
    [| | exfalso; apply Hmode; reflexivity].
  - destruct (abs _ <? 150) eqn:Hj; simpl; repeat split;
      intros; try discriminate; reflexivity.
  - destruct (geoArcDist E _ _ <? 150) eqn:Hj; simpl; repeat split;
      intros; try discriminate; reflexivity.
Qed.

(** The switch between subjective and objective reads [pos.type] for the
    sign of its move and leaves it, the orientation and the extents as
    they are: flipping the type is left to the caller. *)
Lemma convertPositionSubjObj_changes_position_only m :
  let q := pos m in
  let q' := pos (snd (convertPositionSubjObj E m)) in
  pos_type q' = pos_type q /\ orientation q' = orientation q
  /\ verticalExtent q' = verticalExtent q /\ verticalFov q' = verticalFov q
  /\ navigation (snd (convertPositionSubjObj E m)) = navigation m.
Proof.
  cbv zeta; unfold convertPositionSubjObj.
  destruct (positionToCamera E m) as [[[center dir] up] | e]; simpl;
    repeat split.
Qed.

End NavigationProperties.

(** * The properties on concrete inputs *)

(** The stand-ins of the small world are a [normalizeAngle] and a [clamp]
    of the kind the spec describes. *)
Lemma flat_normalizeAngle_in_range : normalizeAngle_in_range flat.
Proof.
  intros a; simpl; unfold flat_normalizeAngle.
  destruct ((0 <=? flat_modulo a 360) && (flat_modulo a 360 <? 360)) eqn:Hr.
  - apply andb_true_iff in Hr; exact Hr.
  - split; reflexivity.
Qed.

Lemma flat_clamp_between : clamp_between flat.
Proof.
  intros v lo hi _ _; simpl; unfold flat_clamp.
  destruct ((lo <=? v) && (v <=? hi)) eqn:Hr.
  - apply andb_true_iff in Hr; right; right; tauto.
  - destruct (v <? lo); [left | right; left]; reflexivity.
Qed.

(** C1 on the request off the centre of its corners: four loaded corners
    of elevations 11, 21, 12, 22 and the weights (0.25, 0.75) give
    (13.5 - 14.5) * 0.75 + 14.5 = 13.75, the rows being
    (22 - 12) * 0.25 + 12 = 14.5 and (21 - 11) * 0.25 + 11 = 13.5. *)
Lemma HeightRequest_process_combines_corners_witness :
  let r := flat_offcentre_request in
  let m := flat_map projected in
  List.length (corners r) = 4%nat
  /\ result r = None
  /\ interpol r = Vec2 0.25 0.75
  /\ fst (fst (process_each flat (corners r) m))
     = [Ok Valid; Ok Valid; Ok Valid; Ok Valid]
  /\ map corner_result (snd (fst (process_each flat (corners r) m)))
     = [Some 11; Some 21; Some 12; Some 22]
  /\ fst (fst (HeightRequest_process flat r m)) = Ok Valid
  /\ result (snd (fst (HeightRequest_process flat r m))) = Some 13.75.
Proof.
  cbv zeta.
  split; [reflexivity | split; [reflexivity | split; [reflexivity |]]].
  split; [reflexivity | split; [reflexivity |]].
  destruct (HeightRequest_process flat flat_offcentre_request
                                  (flat_map projected))
    as [[res r'] m2] eqn:Hp.
  destruct (HeightRequest_process_combines_corners flat
              flat_offcentre_request (flat_map projected)
              (flat_NodeInfo (mkTileId 2 1 1))
              res r' m2 eq_refl eq_refl eq_refl Hp)
    as (_ & _ & Hvalid).
  destruct (Hvalid [Valid; Valid; Valid; Valid]
              (snd (fst (process_each flat (corners flat_offcentre_request)
                                      (flat_map projected))))
              (snd (process_each flat (corners flat_offcentre_request)
                                 (flat_map projected)))
              eq_refl
              (Forall_cons _ eq_refl (Forall_cons _ eq_refl
                (Forall_cons _ eq_refl (Forall_cons _ eq_refl
                  (Forall_nil _))))))
    as (h0 & h1 & h2 & h3 & Hmap & Hq).
  vm_compute in Hmap; inversion Hmap; subst h0 h1 h2 h3.
  destruct (Hq (Vec3 (-22.5) 11.25 13.75) eq_refl) as (Hres & Hresult & _).
  split; [exact Hres | exact Hresult].
Defined.

(** C2 on a queue that holds one absolute request of offset 5: the height
    of the target becomes 16.5 + 5. *)
Lemma checkPanZQueue_drains_one_step_witness :
  let m := flat_map_with_request 5 in
  panZQueue (navigation m) = [flat_request 5]
  /\ fst (fst (HeightRequest_process flat (flat_request 5) m)) = Ok Valid
  /\ fst (checkPanZQueue flat m) = Ok tt
  /\ panZQueue (navigation (snd (checkPanZQueue flat m))) = []
  /\ lastPanZShift (navigation (snd (checkPanZQueue flat m))) = Some 16.5
  /\ targetPoint (navigation (snd (checkPanZQueue flat m))) = Vec3 0 0 21.5.
Proof.
  cbv zeta; split; [reflexivity | split; [reflexivity |]].
  destruct (checkPanZQueue_drains_one_step flat
              (flat_map_with_request 5) (flat_request 5) [] Valid
              (snd (fst (HeightRequest_process flat (flat_request 5)
                                               (flat_map_with_request 5))))
              (snd (HeightRequest_process flat (flat_request 5)
                                          (flat_map_with_request 5)))
              eq_refl eq_refl)
    as (_ & Hok & nh & Hnh & Hq & Hlast & Habs & _).
  vm_compute in Hnh; inversion Hnh; subst nh.
  split; [exact Hok | split; [exact Hq | split; [exact Hlast |]]].
  rewrite (Habs eq_refl); reflexivity.
Defined.

(** C9 on a queue that holds one relative request, before any sample *)
Lemma checkPanZQueue_first_relative_sample_witness :
  let m := flat_map_with_request quiet_NaN in
  lastPanZShift (navigation m) = None
  /\ (resetOffset (flat_request quiet_NaN) =? resetOffset (flat_request quiet_NaN))
     = false
  /\ lastPanZShift (navigation (snd (checkPanZQueue flat m))) = Some 16.5
  /\ panZQueue (navigation (snd (checkPanZQueue flat m))) = []
  /\ targetPoint (navigation (snd (checkPanZQueue flat m)))
     = targetPoint (navigation m).
Proof.
  cbv zeta; split; [reflexivity | split; [reflexivity |]].
  destruct (checkPanZQueue_first_relative_sample flat
              (flat_map_with_request quiet_NaN) (flat_request quiet_NaN) []
              (snd (fst (HeightRequest_process flat (flat_request quiet_NaN)
                           (flat_map_with_request quiet_NaN))))
              (snd (HeightRequest_process flat (flat_request quiet_NaN)
                      (flat_map_with_request quiet_NaN)))
              eq_refl eq_refl eq_refl)
    as (nh & Hnh & Hlast & Hq & Hnone & _).
  vm_compute in Hnh; inversion Hnh; subst nh.
  split; [exact Hlast | split; [exact Hq |]].
  exact (Hnone eq_refl).
Defined.

(** C5 on a tick that starts with one request in the queue *)
Lemma panZQueue_at_most_two_witness :
  let m := flat_map_with_request 5 in
  (List.length (panZQueue (navigation m)) <= 2)%nat
  /\ (List.length (panZQueue (navigation (snd (updateNavigation flat m))))
      <= 2)%nat.
Proof.
  cbv zeta.
  set (m := flat_map_with_request 5).
  assert (Hle : (List.length (panZQueue (navigation m)) <= 2)%nat)
    by (vm_compute; repeat constructor).
  split; [exact Hle |].
  destruct (panZQueue_at_most_two flat m Hle) as (_ & _ & _ & _ & Htick & _).
  exact Htick.
Defined.

(** C7 on a map that holds a sample: [setPoint] with [Instant] drops it *)
Lemma setPoint_effects_witness :
  lastPanZShift
    (navigation (setPoint (snd (checkPanZQueue flat (flat_map_with_request 5)))
                          (Vec3 1 2 3) Instant)) = None
  /\ panZQueue
       (navigation (setPoint (snd (checkPanZQueue flat (flat_map_with_request 5)))
                             (Vec3 1 2 3) Instant)) = [].
Proof.
  destruct (setPoint_effects
              (snd (checkPanZQueue flat (flat_map_with_request 5)))
              (Vec3 1 2 3) Instant) as (_ & _ & Hinstant & _).
  exact (Hinstant eq_refl).
Defined.

(** C10 on a pan in a geographic navigation srs *)
Lemma setters_clear_autoRotation_witness :
  let m := flat_map geographic in
  fst (pan flat m (Vec3 1 0 0)) = Ok tt
  /\ autoRotation (navigation (snd (pan flat m (Vec3 1 0 0)))) = 0.
Proof.
  cbv zeta; split; [reflexivity |].
  destruct (setters_clear_autoRotation flat (flat_map geographic)
              (Vec3 0 0 0) (Vec3 0 0 0) (Vec3 1 0 0) 0 0 Instant)
    as (_ & _ & _ & _ & _ & Hpan).
  exact (Hpan eq_refl).
Defined.

(** C4 on the first tick of the small world *)
Lemma updateNavigation_orientation_in_range_witness :
  let m := flat_map projected in
  fst (updateNavigation flat m) = Ok tt
  /\ in_0_360 (v0 (orientation (pos (snd (updateNavigation flat m)))))
  /\ in_0_360 (v1 (orientation (pos (snd (updateNavigation flat m)))))
  /\ in_0_360 (v2 (orientation (pos (snd (updateNavigation flat m)))))
  /\ in_270_350 (v1 (orientation (pos (snd (updateNavigation flat m))))).
Proof.
  cbv zeta; split; [reflexivity |].
  apply (updateNavigation_orientation_in_range flat (flat_map projected)
           (snd (updateNavigation flat (flat_map projected)))
           flat_normalizeAngle_in_range flat_clamp_between).
  vm_compute; reflexivity.
Defined.

(** C3 on the first tick after initialisation *)
Lemma geographicMode_at_solver_witness :
  let m := flat_map geographic in
  solver_state flat m = Ok (before_solver flat m)
  /\ geographicMode (navigation (before_solver flat m)) <> Dynamic.
Proof.
  cbv zeta.
  assert (Hs : solver_state flat (flat_map geographic)
               = Ok (before_solver flat (flat_map geographic)))
    by (vm_compute; reflexivity).
  split; [exact Hs |].
  destruct (geographicMode_at_solver flat (flat_map geographic) _ Hs)
    as (_ & _ & Hreach).
  apply (Hreach (flat_map_new geographic) [call_initializeNavigation]
                eq_refl eq_refl).
Defined.

(** C3 as the claim has it fails: with the configured mode [Dynamic], after
    a [rotate] has made the mode [Free], a tick whose target lies on the
    equator, far below the threshold, calls the solver in [Free] mode, not
    in [Azimuthal] mode. *)
Lemma geographicMode_not_reset_to_Azimuthal :
  let m := rotate (flat_map geographic) (Vec3 0 0 0) in
  navigationSrsType (mapConfig m) = geographic
  /\ geographicNavMode (options m) = Dynamic
  /\ (navigationLatitudeThreshold (options m) - 1e-5
      <? abs (v1 (targetPoint (navigation m)))) = false
  /\ solver_state flat m = Ok (before_solver flat m)
  /\ geographicMode (navigation (before_solver flat m)) = Free
  /\ geographicMode (navigation (before_solver flat m)) <> Azimuthal.
Proof.
  cbv zeta; repeat split; try (vm_compute; reflexivity).
  vm_compute; discriminate.
Qed.

(** C6 on a pan of 20 degrees, which is accepted *)
Lemma pan_geographic_jump_witness :
  let m := rotate (flat_map geographic) (Vec3 0 0 0) in
  navigationSrsType (mapConfig m) = geographic
  /\ geographicMode (navigation m) <> Dynamic
  /\ fst (pan flat m (Vec3 (-80) 0 0)) = Ok tt
  /\ targetPoint (navigation (snd (pan flat m (Vec3 (-80) 0 0))))
     = Vec3 20 0 100.
Proof.
  cbv zeta; split; [reflexivity | split; [vm_compute; discriminate |]].
  destruct (pan_geographic_jump flat (rotate (flat_map geographic) (Vec3 0 0 0))
              (Vec3 (-80) 0 0) eq_refl)
    as (Hok & Hset & _); [vm_compute; discriminate |].
  split; [exact Hok |].
  rewrite (Hset eq_refl); reflexivity.
Defined.

(** C6 as the claim has it fails: in [Free] mode a pan whose destination
    is at an arc distance of exactly 150 from the position, which is not
    greater than 150, leaves the target where it was. *)
Lemma pan_jump_of_150_is_ignored :
  let m := rotate (flat_map geographic) (Vec3 0 0 0) in
  let value := Vec3 (-600) 0 0 in
  let dest := pan_destination flat (navigation m) (pan_move flat m value) in
  navigationSrsType (mapConfig m) = geographic
  /\ geographicMode (navigation m) = Free
  /\ geoArcDist flat (position (pos m)) dest = 150
  /\ (150 <? geoArcDist flat (position (pos m)) dest) = false
  /\ fst (pan flat m value) = Ok tt
  /\ targetPoint (navigation (snd (pan flat m value)))
     = targetPoint (navigation m)
  /\ targetPoint (navigation (snd (pan flat m value))) <> dest.
Proof.
  cbv zeta; repeat split; try (vm_compute; reflexivity).
  intros H; apply (f_equal (fun p => v0 p =? 150)) in H.
  vm_compute in H; discriminate.
Qed.

(** ** Further runs of the small world *)

(** On the first call [process] locates the point under the camera in the
    tile (2, 1, 1), and prepares that tile and its neighbours to the
    east, to the south and to the south-east as corners, with equal
    weights. *)
Example request_is_located_and_prepared :
  let r := flat_prepared_request quiet_NaN in
  option_map nodeId (nodeInfo r) = Some (mkTileId 2 1 1)
  /\ map (fun c => nodeId (corner_nodeInfo c)) (corners r)
     = [mkTileId 2 1 1; mkTileId 2 2 1; mkTileId 2 1 2; mkTileId 2 2 2]
  /\ interpol r = Vec2 0.5 0.5.
Proof. repeat split; vm_compute; reflexivity. Qed.

(** [resetPositionAltitude] with offset 5 over terrain of height 16.5: the
    next tick puts the target at 21.5 and goes on with a relative
    request. *)
Example resetPositionAltitude_then_tick :
  let m := resetPositionAltitude (flat_map projected) 5 in
  let m1 := snd (updateNavigation flat m) in
  fst (updateNavigation flat m) = Ok tt
  /\ v2 (targetPoint (navigation m1)) = 21.5
  /\ lastPanZShift (navigation m1) = Some 16.5
  /\ map resetOffset (panZQueue (navigation m1)) = [quiet_NaN].
Proof. repeat split; vm_compute; reflexivity. Qed.

(** After initialisation the first tick asks for the height under the
    camera; the second tick gets 16.5, takes it as the first sample and
    leaves the height of the target where it was. *)
Example first_sample_after_initialisation :
  let m1 := snd (updateNavigation flat (flat_map projected)) in
  let m2 := snd (updateNavigation flat m1) in
  map resetOffset (panZQueue (navigation m1)) = [quiet_NaN]
  /\ lastPanZShift (navigation m1) = None
  /\ lastPanZShift (navigation m2) = Some 16.5
  /\ v2 (targetPoint (navigation m2)) = v2 (targetPoint (navigation m1)).
Proof. repeat split; vm_compute; reflexivity. Qed.

(** A corner without tiles makes the request [Invalid]: here the root
    holds only its north-west child, and the descent to the corner
    (2, 2, 1) finds no child of the root to go to. *)
Example request_with_missing_corner_is_Invalid :
  let pruned :=
    mkTraverseNode Valid (flat_NodeInfo (mkTileId 0 0 0)) 0
      [flat_quadtree (fun _ => Valid) 1 (mkTileId 1 0 0)] in
  fst (fst (HeightRequest_process flat (flat_request 5)
              (set_traverseRoot (flat_map projected) (Some pruned))))
  = Ok Invalid.
Proof. vm_compute; reflexivity. Qed.

(** While one corner tile is being loaded the request is
    [Indeterminate], stays at the front of the queue, and the target is
    not moved. *)
Example request_with_loading_corner_is_Indeterminate :
  let m := set_traverseRoot (flat_map_with_request 5)
                            (Some flat_tree_loading) in
  fst (fst (HeightRequest_process flat (flat_request 5) m))
  = Ok Indeterminate
  /\ List.length (panZQueue (navigation (snd (checkPanZQueue flat m))))
     = 1%nat
  /\ targetPoint (navigation (snd (checkPanZQueue flat m)))
     = targetPoint (navigation m).
Proof. repeat split; vm_compute; reflexivity. Qed.

(** Without a root tile every corner waits. *)
Example request_without_root_is_Indeterminate :
  fst (fst (HeightRequest_process flat (flat_request 5)
              (set_traverseRoot (flat_map projected) None)))
  = Ok Indeterminate.
Proof. vm_compute; reflexivity. Qed.

(** A point outside every navigation root makes the request [Invalid]
    while it is located. *)
Example request_outside_the_roots_is_Invalid :
  fst (fst (HeightRequest_process flat (HeightRequest_new (Vec2 500 0))
              (flat_map projected)))
  = Ok Invalid.
Proof. vm_compute; reflexivity. Qed.

(** Ticks while a tile is being loaded keep at most two requests in the
    queue: the first tick pushes one, the second pushes another, the
    third puts its request in place of the last. *)
Example three_ticks_queue :
  let m := set_traverseRoot (flat_map projected) (Some flat_tree_loading) in
  let m1 := snd (updateNavigation flat m) in
  let m2 := snd (updateNavigation flat m1) in
  let m3 := snd (updateNavigation flat m2) in
  map (fun m => List.length (panZQueue (navigation m))) [m; m1; m2; m3]
  = [0; 1; 2; 2]%nat.
Proof. vm_compute; reflexivity. Qed.

(** [convertPositionSubjObj] twice, with nothing in between, moves the
    position twice the same way: an objective position that looks along
    the second axis with a field of view of 90 degrees over an extent of
    100, hence an objective distance of 50, ends 100 behind where it
    started. *)
Example convertPositionSubjObj_twice_without_flip :
  let m := set_pos (flat_map projected)
                   (mkPosition (Vec3 0 0 100) (Vec3 0 0 0) 100 90 fixed
                               objective) in
  let m1 := snd (convertPositionSubjObj flat m) in
  let m2 := snd (convertPositionSubjObj flat m1) in
  positionObjectiveDistance flat m = 50
  /\ position (pos m1) = Vec3 0 (-50) 100
  /\ position (pos m2) = Vec3 0 (-100) 100.
Proof. repeat split; vm_compute; reflexivity. Qed.

(** * Further properties of the code *)

(** ** The descent of a corner through the tree of tiles *)

Section DescentFacts.

Variable E : Collaborators.

Lemma node_at_app n p q n1 :
  node_at n p = Some n1 -> node_at n (p ++ q) = node_at n1 q.
Proof.
  revert n; induction p as [| i p IH]; intros n; simpl.
  - intros H; inversion H; reflexivity.
  - destruct (nth_error (childs n) i) as [c |]; [apply IH | discriminate].
Qed.

Lemma surrogate_validity_determined s :
  surrogate_validity E s <> Indeterminate.
Proof. unfold surrogate_validity; destruct (validSurrogate E s); discriminate. Qed.

(** What a descent from a node leaves: the cursor has gone down from where
    it was to a node of the tree; a load is requested exactly when the
    answer is [Indeterminate], at a node that is; an elevation is found
    only at a valid node that is the target or a leaf, and the answer is
    then what [validSurrogate] says of it. *)
Lemma descend_facts target n :
  forall p,
    exists q n',
      cursor (descend E target n p) = p ++ q
      /\ node_at n q = Some n'
      /\ (load_requested (descend E target n p) = true
          <-> answer (descend E target n p) = Ok Indeterminate)
      /\ (answer (descend E target n p) = Ok Indeterminate ->
          validity n' = Indeterminate)
      /\ (forall s,
             found (descend E target n p) = Some s ->
             answer (descend E target n p) = Ok (surrogate_validity E s)
             /\ validity n' = Valid /\ surrogateValue n' = s
             /\ (nodeId (trav_nodeInfo n') = target \/ childs n' = [])).
Proof.
  induction n as [v ni s cs IH] using TraverseNode_children_ind.
  intros p; simpl; destruct v.
  - exists [], (mkTraverseNode Indeterminate ni s cs); simpl.
    rewrite app_nil_r; repeat split; auto; discriminate.
  - destruct (TileId_eqb (nodeId ni) target
              || match cs with [] => true | _ :: _ => false end) eqn:Hstop.
    + exists [], (mkTraverseNode Valid ni s cs); simpl.
      rewrite app_nil_r; split; [reflexivity | split; [reflexivity |]].
      split; [| split].
      * split; [discriminate |].
        intros H; inversion H as [H1].
        exfalso; exact (surrogate_validity_determined _ H1).
      * intros H; inversion H as [H1].
        exfalso; exact (surrogate_validity_determined _ H1).
      * intros s' Hs; inversion Hs; subst s'.
        repeat split.
        apply orb_true_iff in Hstop; destruct Hstop as [Hid | Hleaf].
        -- left. unfold TileId_eqb in Hid.
           apply andb_true_iff in Hid; destruct Hid as [Hid Hy].
           apply andb_true_iff in Hid; destruct Hid as [Hl Hx].
           apply Z.eqb_eq in Hl, Hx, Hy.
           destruct (nodeId ni), target; simpl in *; congruence.
        -- right; destruct cs; [reflexivity | discriminate].
    + destruct (32 <=? uint32 (lod target - lod (nodeId ni) - 1))%Z.
      * exists [], (mkTraverseNode Valid ni s cs); simpl.
        rewrite app_nil_r; repeat split; auto; discriminate.
      * set (id := mkTileId _ _ _).
        assert (G : forall l pre,
                   cs = pre ++ l ->
                   let d :=
                     (fix find (l : list TraverseNode) (i : nat) {struct l}
                        : Descent :=
                        match l with
                        | [] => mkDescent (Ok Invalid) p None false
                        | it :: l' =>
                            if TileId_eqb (nodeId (trav_nodeInfo it)) id
                            then descend E target it (p ++ [i])
                            else find l' (S i)
                        end) l (List.length pre) in
                   exists q n',
                     cursor d = p ++ q
                     /\ node_at (mkTraverseNode Valid ni s cs) q = Some n'
                     /\ (load_requested d = true <-> answer d = Ok Indeterminate)
                     /\ (answer d = Ok Indeterminate ->
                         validity n' = Indeterminate)
                     /\ (forall s',
                            found d = Some s' ->
                            answer d = Ok (surrogate_validity E s')
                            /\ validity n' = Valid /\ surrogateValue n' = s'
                            /\ (nodeId (trav_nodeInfo n') = target
                                \/ childs n' = []))).
        { induction l as [| it l' IHl]; intros pre Hcs; cbv zeta.
          - exists [], (mkTraverseNode Valid ni s cs); simpl.
            rewrite app_nil_r; repeat split; auto; discriminate.
          - destruct (TileId_eqb (nodeId (trav_nodeInfo it)) id).
            + assert (Hit : In it cs)
                by (rewrite Hcs; apply in_or_app; right; left; reflexivity).
              rewrite Forall_forall in IH.
              destruct (IH it Hit (p ++ [List.length pre]))
                as (q & n' & Hc & Hn & Hrest).
              exists (List.length pre :: q), n'.
              split; [rewrite Hc, <- app_assoc; reflexivity |].
              split; [| exact Hrest].
              simpl; rewrite Hcs, nth_error_app2, Nat.sub_diag by lia.
              simpl; exact Hn.
            + specialize (IHl (pre ++ [it])).
              rewrite length_app, Nat.add_comm in IHl; simpl in IHl.
              apply IHl; rewrite Hcs, <- app_assoc; reflexivity. }
        exact (G cs [] eq_refl).
  - exists [], (mkTraverseNode Invalid ni s cs); simpl.
    rewrite app_nil_r; repeat split; auto; discriminate.
Qed.

(** The corner as [process] leaves it after a descent from the node its
    cursor points at. *)
Lemma CornerRequest_process_descends c m root p n :
  corner_result c = None ->
  traverseRoot m = Some root ->
  match trav c with Some p' => p' | None => [] end = p ->
  node_at root p = Some n ->
  CornerRequest_process E c m
  = (let d := descend E (nodeId (corner_nodeInfo c)) n p in
     (answer d,
      mkCornerRequest (corner_nodeInfo c) (Some (cursor d)) (found d),
      if load_requested d
      then set_traverseRoot m (Some (traverse E (cursor d) root))
      else m)).
Proof.
  intros Hr Hroot Hp Hn; unfold CornerRequest_process.
  rewrite Hr, Hroot, Hp, Hn; reflexivity.
Qed.

(** X1. A corner that holds an elevation has its answer for good. *)
Theorem CornerRequest_result_is_final
  (c : CornerRequest) (m : MapImpl) (a : Result Validity)
  (c' : CornerRequest) (m' : MapImpl) (h : double) :
  CornerRequest_process E c m = (a, c', m') ->
  corner_result c' = Some h ->
  a = Ok (surrogate_validity E h)
  /\ forall m2, CornerRequest_process E c' m2 = (a, c', m2).
Proof.
  intros Hp Hh.
  assert (Ha : a = Ok (surrogate_validity E h)).
  { unfold CornerRequest_process in Hp.
    destruct (corner_result c) as [r |] eqn:Hr.
    - inversion Hp; subst; congruence.
    - destruct (traverseRoot m) as [root |].
      + destruct (node_at root _) as [n |] eqn:Hn.
        * destruct (descend_facts (nodeId (corner_nodeInfo c)) n
                      (match trav c with Some p => p | None => [] end))
            as (q & n' & _ & _ & _ & _ & Hfound).
          inversion Hp; subst; simpl in Hh.
          destruct (Hfound h Hh) as (Hans & _); exact Hans.
        * inversion Hp; subst; simpl in Hh; congruence.
      + destruct (trav c); inversion Hp; subst; congruence. }
  split; [exact Ha |].
  intros m2; unfold CornerRequest_process; rewrite Hh, Ha; reflexivity.
Qed.

(** X2. A corner changes the map only to request the load of the
    indeterminate node its cursor stops at, and answers [Indeterminate]
    when it does. *)
Theorem CornerRequest_process_only_requests_loads
  (c : CornerRequest) (m : MapImpl) (a : Result Validity)
  (c' : CornerRequest) (m' : MapImpl) :
  CornerRequest_process E c m = (a, c', m') ->
  m' = m
  \/ (a = Ok Indeterminate
      /\ exists root p n',
          traverseRoot m = Some root /\ trav c' = Some p
          /\ node_at root p = Some n' /\ validity n' = Indeterminate
          /\ m' = set_traverseRoot m (Some (traverse E p root))).
Proof.
  unfold CornerRequest_process.
  destruct (corner_result c) as [r |].
  - intros H; inversion H; left; reflexivity.
  - destruct (traverseRoot m) as [root |] eqn:Hroot.
    + destruct (node_at root _) as [n |] eqn:Hn.
      * destruct (descend_facts (nodeId (corner_nodeInfo c)) n
                    (match trav c with Some p => p | None => [] end))
          as (q & n' & Hc & Hq & Hload & Hind & _).
        intros H; inversion H; subst; clear H.
        destruct (load_requested _) eqn:Hl; [right | left; reflexivity].
        assert (Ha := proj1 Hload eq_refl).
        split; [exact Ha |].
        exists root, (cursor (descend E (nodeId (corner_nodeInfo c)) n
                        (match trav c with Some p => p | None => [] end))), n'.
        repeat split.
        -- rewrite Hc, (node_at_app _ _ _ _ Hn); exact Hq.
        -- exact (Hind Ha).
      * intros H; inversion H; left; reflexivity.
    + destruct (trav c); intros H; inversion H; left; reflexivity.
Qed.

(** X3. With a root tile, a corner without elevation whose cursor is null
    or points into the tree has afterwards a cursor that points into the
    tree, at or below where it pointed; and it keeps its target. *)
Theorem CornerRequest_process_cursor_descends
  (c : CornerRequest) (m : MapImpl) (root : TraverseNode) :
  corner_result c = None ->
  traverseRoot m = Some root ->
  (forall p, trav c = Some p -> node_at root p <> None) ->
  let c' := snd (fst (CornerRequest_process E c m)) in
  corner_nodeInfo c' = corner_nodeInfo c
  /\ exists p' n',
      trav c' = Some p' /\ node_at root p' = Some n'
      /\ forall p, trav c = Some p -> exists q, p' = p ++ q.
Proof.
  intros Hr Hroot Hres; cbv zeta.
  set (p := match trav c with Some p' => p' | None => [] end).
  assert (Hn : exists n, node_at root p = Some n).
  { subst p; destruct (trav c) as [p0 |] eqn:Ht.
    - destruct (node_at root p0) eqn:Hn; [eauto |].
      exfalso; exact (Hres p0 eq_refl Hn).
    - simpl; eauto. }
  destruct Hn as [n Hn].
  rewrite (CornerRequest_process_descends c m root p n Hr Hroot eq_refl Hn).
  cbv zeta; simpl.
  destruct (descend_facts (nodeId (corner_nodeInfo c)) n p)
    as (q & n' & Hc & Hq & _).
  split; [reflexivity |].
  exists (p ++ q), n'; rewrite Hc.
  split; [reflexivity | split].
  - rewrite (node_at_app _ _ _ _ Hn); exact Hq.
  - intros p0 Hp0; subst p; rewrite Hp0; eauto.
Qed.

(** X4. The elevation a corner comes to hold is the surrogate of a valid
    node of the tree, the one its cursor stops at, which is the tile the
    corner asks for or a leaf. *)
Theorem CornerRequest_process_elevation_source
  (c : CornerRequest) (m : MapImpl) (a : Result Validity)
  (c' : CornerRequest) (m' : MapImpl) (h : double) :
  corner_result c = None ->
  CornerRequest_process E c m = (a, c', m') ->
  corner_result c' = Some h ->
  exists root p n',
    traverseRoot m = Some root /\ trav c' = Some p
    /\ node_at root p = Some n'
    /\ validity n' = Valid /\ surrogateValue n' = h
    /\ (nodeId (trav_nodeInfo n') = nodeId (corner_nodeInfo c)
        \/ childs n' = [])
    /\ m' = m.
Proof.
  intros Hr Hp Hh; unfold CornerRequest_process in Hp; rewrite Hr in Hp.
  destruct (traverseRoot m) as [root |] eqn:Hroot.
  - destruct (node_at root _) as [n |] eqn:Hn.
    + destruct (descend_facts (nodeId (corner_nodeInfo c)) n
                  (match trav c with Some p => p | None => [] end))
        as (q & n' & Hc & Hq & Hload & _ & Hfound).
      inversion Hp; subst; clear Hp; simpl in Hh.
      destruct (Hfound h Hh) as (Hans & Hv & Hs & Hid).
      exists root, (cursor (descend E (nodeId (corner_nodeInfo c)) n
                      (match trav c with Some p => p | None => [] end))), n'.
      repeat split; auto.
      * rewrite Hc, (node_at_app _ _ _ _ Hn); exact Hq.
      * destruct (load_requested _) eqn:Hl; [| reflexivity].
        rewrite (proj1 Hload eq_refl) in Hans; inversion Hans as [H1].
        exfalso; exact (surrogate_validity_determined h (eq_sym H1)).
    + inversion Hp; subst; simpl in Hh; congruence.
  - destruct (trav c); inversion Hp; subst; congruence.
Qed.

Lemma TileId_eqb_eq (a b : TileId) : TileId_eqb a b = true <-> a = b.
Proof.
  unfold TileId_eqb; destruct a as [l1 x1 y1], b as [l2 x2 y2]; simpl.
  rewrite !andb_true_iff, !Z.eqb_eq; split.
  - intros [[-> ->] ->]; reflexivity.
  - intros H; inversion H; auto.
Qed.

(** X5. Descending towards a tile of lod at most 32 from a node of
    smaller lod (or from the tile itself) never shifts by the width of the
    operand: the descent gives an answer. *)
Theorem descend_shift_is_defined (target : TileId) (n : TraverseNode) :
  (lod target <= 32)%Z ->
  (0 <= lod (nodeId (trav_nodeInfo n)) < lod target)%Z
  \/ nodeId (trav_nodeInfo n) = target ->
  forall p, exists v, answer (descend E target n p) = Ok v.
Proof.
  intros Hmax.
  induction n as [v ni s cs IH] using TraverseNode_children_ind.
  intros Hstart p; simpl in *; destruct v; try (eexists; reflexivity).
  destruct (TileId_eqb (nodeId ni) target
            || match cs with [] => true | _ :: _ => false end) eqn:Hstop;
    [eexists; reflexivity |].
  apply orb_false_iff in Hstop; destruct Hstop as [Hid _].
  destruct Hstart as [Hlod | Heq];
    [| apply TileId_eqb_eq in Heq; congruence].
  assert (Hdiff : uint32 (lod target - lod (nodeId ni) - 1)
                  = (lod target - lod (nodeId ni) - 1)%Z)
    by (unfold uint32; change (2 ^ 32)%Z with 4294967296%Z;
        apply Z.mod_small; lia).
  rewrite Hdiff.
  destruct (Z.leb_spec 32 (lod target - lod (nodeId ni) - 1)); [lia |].
  assert (Hl : uint8 (uint32 (lod target - (lod target - lod (nodeId ni) - 1)))
               = (lod (nodeId ni) + 1)%Z).
  { unfold uint8, uint32.
    change (2 ^ 32)%Z with 4294967296%Z; change (2 ^ 8)%Z with 256%Z.
    replace (lod target - (lod target - lod (nodeId ni) - 1))%Z
      with (lod (nodeId ni) + 1)%Z by lia.
    rewrite (Z.mod_small (lod (nodeId ni) + 1) 4294967296) by lia.
    apply Z.mod_small; lia. }
  rewrite Hl.
  generalize 0%nat.
  induction IH as [| it l' Hit _ IHl]; intros i; [eexists; reflexivity |].
  destruct (TileId_eqb (nodeId (trav_nodeInfo it)) _) eqn:Hchild;
    [| apply IHl].
  apply TileId_eqb_eq in Hchild.
  apply Hit.
  destruct (Z.eq_dec (lod (nodeId ni) + 1) (lod target)) as [Hlast | Hmore].
  - right; rewrite Hchild.
    replace (lod target - lod (nodeId ni) - 1)%Z with 0%Z by lia.
    rewrite !Z.shiftr_0_r, Hlast; destruct target; reflexivity.
  - left; rewrite Hchild; simpl; lia.
Qed.

(** X6. At a valid node with children that is not the tile asked for and
    whose lod is not below the lod of that tile, the count of the shift
    wraps around to 2^32 + lod target - lod node - 1: the shift is
    undefined. *)
Theorem descend_at_target_lod_is_undefined
  (target : TileId) (ni : NodeInfo) (s : double) (c0 : TraverseNode)
  (cs : list TraverseNode) (p : TravPtr) :
  nodeId ni <> target ->
  (0 <= lod target <= lod (nodeId ni))%Z ->
  (lod (nodeId ni) < 2 ^ 8)%Z ->
  answer (descend E target (mkTraverseNode Valid ni s (c0 :: cs)) p)
  = Throw undefined_behaviour.
Proof.
  intros Hne Hlod Hmax; simpl.
  destruct (TileId_eqb (nodeId ni) target) eqn:Hid;
    [apply TileId_eqb_eq in Hid; contradiction |].
  simpl.
  change (2 ^ 8)%Z with 256%Z in Hmax.
  assert (Hdiff : uint32 (lod target - lod (nodeId ni) - 1)
                  = (4294967296 + (lod target - lod (nodeId ni) - 1))%Z).
  { unfold uint32; change (2 ^ 32)%Z with 4294967296%Z.
    symmetry; apply Z.mod_unique_pos with (q := (-1)%Z); lia. }
  rewrite Hdiff.
  destruct (Z.leb_spec 32 (4294967296 + (lod target - lod (nodeId ni) - 1)));
    [reflexivity | lia].
Qed.

End DescentFacts.

Section LocateFacts.

Variable E : Collaborators.

Lemma findInfoNavRoot_from_skip it rest navSrs navPos :
  is_nav_root_of E navSrs navPos it = false ->
  findInfoNavRoot_from E (it :: rest) navSrs navPos
  = findInfoNavRoot_from E rest navSrs navPos.
Proof.
  unfold is_nav_root_of; simpl.
  destruct (partitioning_bisection (snd it)); simpl; [| reflexivity].
  destruct (convert E _ _ _) as [q | e]; [| reflexivity].
  intros ->; reflexivity.
Qed.

Lemma findInfoNavRoot_from_take it rest navSrs navPos :
  is_nav_root_of E navSrs navPos it = true ->
  exists q,
    convert E (vec2to3 navPos 0) navSrs (division_srs (snd it)) = Ok q
    /\ findInfoNavRoot_from E (it :: rest) navSrs navPos
       = Ok (NodeInfo_make E (fst it), vec3to2 q).
Proof.
  unfold is_nav_root_of; simpl.
  destruct (partitioning_bisection (snd it)); simpl; [| discriminate].
  destruct (convert E _ _ _) as [q | e]; [| discriminate].
  intros ->; exists q; split; reflexivity.
Qed.

Lemma findInfoNavRoot_from_first nodes navSrs navPos :
  match findInfoNavRoot_from E nodes navSrs navPos with
  | Ok (ni, sds') =>
      exists pre it post q,
        nodes = pre ++ it :: post
        /\ forallb (fun x => negb (is_nav_root_of E navSrs navPos x)) pre = true
        /\ is_nav_root_of E navSrs navPos it = true
        /\ ni = NodeInfo_make E (fst it)
        /\ convert E (vec2to3 navPos 0) navSrs (division_srs (snd it)) = Ok q
        /\ sds' = vec3to2 q
  | Throw e =>
      e = runtime_error
      /\ forallb (fun x => negb (is_nav_root_of E navSrs navPos x)) nodes = true
  end.
Proof.
  induction nodes as [| it rest IH]; [split; reflexivity |].
  destruct (is_nav_root_of E navSrs navPos it) eqn:Hit.
  - destruct (findInfoNavRoot_from_take it rest navSrs navPos Hit)
      as (q & Hq & ->).
    exists [], it, rest, q; repeat split; auto.
  - rewrite (findInfoNavRoot_from_skip it rest navSrs navPos Hit).
    destruct (findInfoNavRoot_from E rest navSrs navPos) as [[ni sds'] | e].
    + destruct IH as (pre & it0 & post & q & Hn & Hpre & Hrest).
      exists (it :: pre), it0, post, q; simpl; rewrite Hit, Hn; auto.
    + destruct IH as [He Hall]; simpl; rewrite Hit, Hall; auto.
Qed.

(** X7. [findInfoNavRoot] returns the first division node that qualifies
    as navigation root of the point, with the point converted to its srs;
    it throws [std::runtime_error], and nothing else, exactly when no
    division node qualifies: an exception of the convertor only
    disqualifies the node at hand. *)
Theorem findInfoNavRoot_first_root (m : MapImpl) (navPos : vec2) :
  let nodes := division_nodes (mapConfig m) in
  let qualifies := is_nav_root_of E (navigationSrs (mapConfig m)) navPos in
  match findInfoNavRoot E m navPos with
  | Ok (ni, sds') =>
      exists pre it post q,
        nodes = pre ++ it :: post
        /\ forallb (fun x => negb (qualifies x)) pre = true
        /\ qualifies it = true
        /\ ni = NodeInfo_make E (fst it)
        /\ convert E (vec2to3 navPos 0) (navigationSrs (mapConfig m))
                   (division_srs (snd it)) = Ok q
        /\ sds' = vec3to2 q
        /\ NodeInfo_inside E ni sds' = true
  | Throw e =>
      e = runtime_error /\ forallb (fun x => negb (qualifies x)) nodes = true
  end.
Proof.
  cbv zeta; unfold findInfoNavRoot.
  pose proof (findInfoNavRoot_from_first (division_nodes (mapConfig m))
                (navigationSrs (mapConfig m)) navPos) as H.
  destruct (findInfoNavRoot_from E _ _ _) as [[ni sds'] | e]; [| exact H].
  destruct H as (pre & it & post & q & Hn & Hpre & Hit & Hni & Hq & Hs).
  exists pre, it, post, q; repeat split; auto.
  subst ni sds'; unfold is_nav_root_of in Hit; rewrite Hq in Hit.
  apply andb_true_iff in Hit; tauto.
Qed.

Lemma findInfoSdsSampled_fuel_result fuel m :
  forall info sdsPos,
    match findInfoSdsSampled_fuel E fuel m info sdsPos with
    | Ok ni =>
        coarse_enough E m ni = true
        /\ (ni = info \/ NodeInfo_inside E ni sdsPos = true)
    | Throw e => e = runtime_error \/ e = recursion_limit
    end.
Proof.
  assert (Hfirst : forall info childs sdsPos ni,
             first_child_inside E info childs sdsPos = Some ni ->
             NodeInfo_inside E ni sdsPos = true).
  { intros info childs sdsPos ni; induction childs as [| c rest IH]; simpl;
      [discriminate |].
    destruct (NodeInfo_inside E (NodeInfo_child E info c) sdsPos) eqn:Hin;
      simpl; [| exact IH].
    intros H; inversion H; subst; exact Hin. }
  induction fuel as [| fuel IH]; intros info sdsPos; simpl;
    fold (coarse_enough E m info);
    destruct (coarse_enough E m info) eqn:Hc; auto;
    destruct (first_child_inside E info _ sdsPos) as [ni |] eqn:Hf; auto.
  specialize (IH ni sdsPos).
  destruct (findInfoSdsSampled_fuel E fuel m ni sdsPos) as [r | e]; auto.
  destruct IH as [Hr [-> | Hin]]; split; auto.
  right; exact (Hfirst _ _ _ _ Hf).
Qed.

(** X8. The node [findInfoSdsSampled] returns is coarse enough for the
    view extent ([desire < 3]), and is the node it was given or a node
    that contains the point; it returns the given node when that is
    coarse enough already; otherwise it throws [std::runtime_error] (a
    node that is too fine has no child around the point) or gives up at
    the bound of the descent. *)
Theorem findInfoSdsSampled_result
  (m : MapImpl) (info : NodeInfo) (sdsPos : vec2) :
  (coarse_enough E m info = true ->
   findInfoSdsSampled E m info sdsPos = Ok info)
  /\ match findInfoSdsSampled E m info sdsPos with
     | Ok ni =>
         coarse_enough E m ni = true
         /\ (ni = info \/ NodeInfo_inside E ni sdsPos = true)
     | Throw e => e = runtime_error \/ e = recursion_limit
     end.
Proof.
  split; [| apply findInfoSdsSampled_fuel_result].
  unfold findInfoSdsSampled, coarse_enough.
  destruct (sampling_depth_limit E); simpl; intros ->; reflexivity.
Qed.

(** X9. A request for a point that no division node qualifies for (none
    at all, for one) is answered [Invalid] at once, and neither the
    request nor the map changes. *)
Theorem HeightRequest_process_outside_roots (r : HeightRequest) (m : MapImpl) :
  result r = None ->
  corners r = [] ->
  forallb (fun x => negb (is_nav_root_of E (navigationSrs (mapConfig m))
                                         (navPos r) x))
          (division_nodes (mapConfig m)) = true ->
  HeightRequest_process E r m = (Ok Invalid, r, m).
Proof.
  intros Hres Hcs Hnone.
  unfold HeightRequest_process, locate; rewrite Hres, Hcs.
  unfold findInfoNavRoot.
  pose proof (findInfoNavRoot_from_first (division_nodes (mapConfig m))
                (navigationSrs (mapConfig m)) (navPos r)) as H.
  destruct (findInfoNavRoot_from E _ _ _) as [[ni sds'] | e].
  - destruct H as (pre & it & post & q & Hn & _ & Hit & _).
    rewrite Hn, forallb_app in Hnone; simpl in Hnone.
    rewrite Hit in Hnone; simpl in Hnone.
    rewrite andb_false_r in Hnone; discriminate.
  - destruct H as [-> _]; reflexivity.
Qed.

End LocateFacts.

Section RequestFacts.

Variable E : Collaborators.

Lemma uint32_pred_succ (z : Z) :
  (0 <= z < 2 ^ 32)%Z -> uint32 (uint32 (z - 1) + 1) = z.
Proof.
  unfold uint32; change (2 ^ 32)%Z with 4294967296%Z; intros Hz.
  rewrite Z.add_mod_idemp_l by lia.
  replace (z - 1 + 1)%Z with z by lia.
  apply Z.mod_small; exact Hz.
Qed.

Lemma uint32_range (z : Z) : (0 <= uint32 z < 2 ^ 32)%Z.
Proof. unfold uint32; apply Z.mod_pos_bound; reflexivity. Qed.

Lemma uint32_small (z : Z) : (0 <= z < 2 ^ 32)%Z -> uint32 z = z.
Proof. unfold uint32; apply Z.mod_small. Qed.

(** X10. The four corners [process] prepares are fresh and ask for the
    tiles of a two by two block of the sampled lod, in the order (x, y),
    (x + 1, y), (x, y + 1), (x + 1, y + 1) with the indices wrapping at
    2^32; the sampled tile is one of them: the one of column x + 1 when
    the first coordinate of the point is below that of the centre of the
    tile and of column x otherwise, the one of row y when the second
    coordinate is below that of the centre and of row y + 1 otherwise. *)
Theorem prepare_corners_block
  (r : HeightRequest) (ni : NodeInfo) (sds' : vec2) :
  (forall id, nodeId (NodeInfo_make E id) = id) ->
  (0 <= tx (nodeId ni) < 2 ^ 32)%Z ->
  (0 <= ty (nodeId ni) < 2 ^ 32)%Z ->
  let r' := prepare_corners E r ni sds' in
  let l := lod (nodeId ni) in
  nodeInfo r' = Some ni /\ sds r' = sds'
  /\ Forall (fun c => trav c = None /\ corner_result c = None) (corners r')
  /\ exists cx cy,
      map (fun c => nodeId (corner_nodeInfo c)) (corners r')
      = [ mkTileId l cx cy; mkTileId l (uint32 (cx + 1)) cy;
          mkTileId l cx (uint32 (cy + 1));
          mkTileId l (uint32 (cx + 1)) (uint32 (cy + 1)) ]
      /\ tx (nodeId ni)
         = (if u0 sds' <? u0 (vec2_scale (vec2_add (ll (extents ni))
                                                   (ur (extents ni))) 0.5)
            then uint32 (cx + 1) else cx)
      /\ ty (nodeId ni)
         = (if u1 sds' <? u1 (vec2_scale (vec2_add (ll (extents ni))
                                                   (ur (extents ni))) 0.5)
            then cy else uint32 (cy + 1)).
Proof.
  intros Hmake Hx Hy; cbv zeta; unfold prepare_corners.
  set (west := u0 sds' <? _).
  set (south := u1 sds' <? _).
  cbv zeta; simpl corners; simpl nodeInfo; simpl sds.
  split; [reflexivity | split; [reflexivity | split]].
  - repeat constructor.
  - exists (if west then uint32 (tx (nodeId ni) - 1) else tx (nodeId ni)),
           (if south then ty (nodeId ni) else uint32 (ty (nodeId ni) - 1)).
    simpl map; rewrite !Hmake.
    change (0 mod 2)%Z with 0%Z; change (1 mod 2)%Z with 1%Z.
    change (2 mod 2)%Z with 0%Z; change (3 mod 2)%Z with 1%Z.
    change (0 / 2)%Z with 0%Z; change (1 / 2)%Z with 0%Z.
    change (2 / 2)%Z with 1%Z; change (3 / 2)%Z with 1%Z.
    pose proof (uint32_range (tx (nodeId ni) - 1)) as Hx1.
    pose proof (uint32_range (ty (nodeId ni) - 1)) as Hy1.
    destruct west, south; simpl;
      rewrite ?Z.add_0_r, ?uint32_pred_succ by assumption;
      rewrite ?(uint32_small (tx (nodeId ni))),
        ?(uint32_small (ty (nodeId ni))),
        ?(uint32_small (uint32 (tx (nodeId ni) - 1))),
        ?(uint32_small (uint32 (ty (nodeId ni) - 1))) by assumption;
      repeat split; reflexivity.
Qed.

Lemma CornerRequest_process_keeps_target c m :
  corner_nodeInfo (snd (fst (CornerRequest_process E c m)))
  = corner_nodeInfo c.
Proof.
  unfold CornerRequest_process.
  destruct (corner_result c); [reflexivity |].
  destruct (traverseRoot m) as [root |].
  - destruct (node_at root _); reflexivity.
  - destruct (trav c); reflexivity.
Qed.

Lemma process_corners_keeps_targets cs :
  forall d m,
    map corner_nodeInfo (snd (fst (process_corners E cs d m)))
    = map corner_nodeInfo cs.
Proof.
  induction cs as [| c rest IH]; intros d m; simpl; [reflexivity |].
  pose proof (CornerRequest_process_keeps_target c m) as Hc.
  destruct (CornerRequest_process E c m) as [[[[] |] c1] m1]; simpl in *.
  - specialize (IH false m1).
    destruct (process_corners E rest false m1) as [[x rest'] m2]; simpl in *.
    congruence.
  - specialize (IH d m1).
    destruct (process_corners E rest d m1) as [[x rest'] m2]; simpl in *.
    congruence.
  - congruence.
  - congruence.
Qed.

(** X11. Once its corners are prepared a request keeps them over its
    retries: the same corner tiles in the same order, the same sampled
    node, point and weights, the same offset. *)
Theorem HeightRequest_process_keeps_preparation
  (r : HeightRequest) (m : MapImpl) :
  corners r <> [] ->
  let r' := snd (fst (HeightRequest_process E r m)) in
  map corner_nodeInfo (corners r') = map corner_nodeInfo (corners r)
  /\ nodeInfo r' = nodeInfo r /\ sds r' = sds r /\ interpol r' = interpol r
  /\ navPos r' = navPos r /\ resetOffset r' = resetOffset r.
Proof.
  intros Hcs; cbv zeta; unfold HeightRequest_process.
  destruct (result r); [repeat split |].
  rewrite (locate_prepared E r m Hcs).
  pose proof (process_corners_keeps_targets (corners r) true m) as Hk.
  destruct (process_corners E (corners r) true m)
    as [[[[v | []] | e] cs] m2]; simpl in *; try (repeat split; assumption).
  destruct (find_height E _ m2); simpl; repeat split; assumption.
Qed.

(** X12. A request that has answered [Valid] holds its height and answers
    [Valid] ever after, whatever has become of the map, without touching
    the map or itself. *)
Theorem HeightRequest_Valid_is_final
  (r : HeightRequest) (m : MapImpl) (r' : HeightRequest) (m' : MapImpl) :
  HeightRequest_process E r m = (Ok Valid, r', m') ->
  (exists nh, result r' = Some nh)
  /\ forall m2, HeightRequest_process E r' m2 = (Ok Valid, r', m2).
Proof.
  intros Hp.
  destruct (HeightRequest_process_valid_result E _ _ _ _ Hp) as [nh Hnh].
  split; [eauto |].
  intros m2; unfold HeightRequest_process; rewrite Hnh; reflexivity.
Qed.

End RequestFacts.

Section FloatFacts.

Lemma SFcompare_some_l (a b : spec_float) (c : comparison) :
  SFcompare a b = Some c -> a <> S754_nan.
Proof. intros H Ha; subst a; simpl in H; discriminate. Qed.

(** Both sides of a comparison that holds compare with themselves. *)
Lemma leb_true_refl (a b : double) :
  (a <=? b) = true -> (a <=? a) = true /\ (b <=? b) = true.
Proof.
  rewrite !FloatAxioms.leb_spec; unfold SFleb; intros H.
  destruct (SFcompare (Prim2SF a) (Prim2SF b)) as [c |] eqn:Hc;
    [| discriminate].
  rewrite (SFcompare_refl _ (SFcompare_some_l _ _ _ Hc)).
  rewrite (SFcompare_refl _ (SFcompare_some_r _ _ _ Hc)); auto.
Qed.

End FloatFacts.

Section TickFacts.

Variable E : Collaborators.

(** A clamp of the kind the spec describes lands between ordered bounds. *)
Lemma clamp_between_bounds (v lo hi : double) :
  clamp_between E ->
  (v =? v) = true -> (lo <=? hi) = true ->
  (lo <=? clamp E v lo hi) = true /\ (clamp E v lo hi <=? hi) = true.
Proof.
  intros Hclamp Hv Hb.
  destruct (leb_true_refl _ _ Hb) as [Hlo Hhi].
  destruct (Hclamp v lo hi Hv Hb) as [-> | [-> | (-> & H1 & H2)]]; auto.
Qed.

(** X13. Draining the queue leaves the configuration with the position
    and the options alone, and in the navigation state everything but the
    height of the target, the last sample and the queue; the queue loses
    at most its front request; on an empty queue nothing changes at all. *)
Theorem checkPanZQueue_changes_height_only (m : MapImpl) :
  let m' := snd (checkPanZQueue E m) in
  let n := navigation m in
  let n' := navigation m' in
  mapConfig m' = mapConfig m /\ options m' = options m
  /\ changeRotation n' = changeRotation n
  /\ autoRotation n' = autoRotation n
  /\ targetViewExtent n' = targetViewExtent n
  /\ geographicMode n' = geographicMode n
  /\ nav_type n' = nav_type n
  /\ v0 (targetPoint n') = v0 (targetPoint n)
  /\ v1 (targetPoint n') = v1 (targetPoint n)
  /\ (List.length (panZQueue n') = List.length (panZQueue n)
      \/ S (List.length (panZQueue n')) = List.length (panZQueue n))
  /\ (panZQueue n = [] -> checkPanZQueue E m = (Ok tt, m)).
Proof.
  cbv zeta.
  destruct (panZQueue (navigation m)) as [| task rest] eqn:Hq.
  - unfold checkPanZQueue; rewrite Hq; simpl; rewrite Hq.
    repeat split; auto.
  - destruct (HeightRequest_process E task m) as [[res task'] m1] eqn:Hp.
    rewrite (checkPanZQueue_front E _ _ _ _ _ _ Hq Hp).
    pose proof (HeightRequest_process_settings E task m) as (_ & Hc & Ho).
    rewrite Hp in Hc, Ho; simpl in Hc, Ho.
    destruct res as [[] | e]; simpl;
      try (repeat split; auto; discriminate).
    destruct (result task') as [nh |]; simpl;
      try (repeat split; auto; discriminate).
    unfold apply_height.
    destruct (resetOffset task' =? resetOffset task');
      [| destruct (lastPanZShift (navigation m))]; simpl;
      repeat split; auto; discriminate.
Qed.

(** X14. [resetPositionAltitude] followed by the queue step of a tick: when
    the queued request answers [Valid] with height [nh], the target ends at
    height [nh + offset], its other coordinates untouched, the sample is
    remembered and the queue is empty; but with an offset that is not a
    number the request counts as relative, there is no earlier sample, and
    the target is left at height 0. *)
Theorem resetPositionAltitude_then_checkPanZQueue (m : MapImpl)
  (k : double) (task' : HeightRequest) (m1 : MapImpl) :
  let m0 := resetPositionAltitude m k in
  HeightRequest_process E (altitude_request (position (pos m)) k) m0
    = (Ok Valid, task', m1) ->
  exists nh,
    result task' = Some nh
    /\ fst (checkPanZQueue E m0) = Ok tt
    /\ let n' := navigation (snd (checkPanZQueue E m0)) in
       panZQueue n' = []
       /\ lastPanZShift n' = Some nh
       /\ v0 (targetPoint n') = v0 (targetPoint (navigation m))
       /\ v1 (targetPoint n') = v1 (targetPoint (navigation m))
       /\ v2 (targetPoint n') = (if k =? k then nh + k else 0).
Proof.
  cbv zeta; intros Hp.
  destruct (HeightRequest_process_valid_result E _ _ _ _ Hp) as [nh Hnh].
  pose proof (HeightRequest_process_keeps E
                (altitude_request (position (pos m)) k)
                (resetPositionAltitude m k)) as [_ Hk].
  rewrite Hp in Hk; simpl in Hk.
  exists nh; split; [exact Hnh |].
  rewrite (checkPanZQueue_front E (resetPositionAltitude m k) _ []
             _ _ _ eq_refl Hp).
  rewrite Hnh; simpl; unfold apply_height; rewrite Hk.
  destruct (k =? k); simpl; repeat split.
Qed.

(** What the tick has done to the position and to the queue when the
    solver is called. *)
Lemma before_solver_position m :
  position (pos (before_solver E m)) = position (pos m)
  /\ orientation (pos (before_solver E m)) = orientation (pos m)
  /\ verticalExtent (pos (before_solver E m)) = verticalExtent (pos m)
  /\ verticalFov (pos (before_solver E m)) = verticalFov (pos m)
  /\ pos_type (pos (before_solver E m)) = pos_type (pos m)
  /\ heightMode (pos (before_solver E m)) = fixed.
Proof.
  unfold before_solver, auto_rotation, geographic_navigation, limit_zoom,
    ground_floating_position, pos.
  destruct (heightMode (mc_position (mapConfig m))) eqn:Hh; simpl;
    destruct (navigationSrsType (mapConfig m)); simpl; rewrite ?Hh;
    repeat split.
Qed.

Lemma limit_latitude_queue o n :
  panZQueue (limit_latitude E o n) = panZQueue n
  /\ lastPanZShift (limit_latitude E o n) = lastPanZShift n
  /\ targetViewExtent (limit_latitude E o n) = targetViewExtent n.
Proof. unfold limit_latitude; destruct (geographicMode n); repeat split. Qed.

Lemma check_navigation_mode_queue o n :
  panZQueue (check_navigation_mode o n) = panZQueue n
  /\ lastPanZShift (check_navigation_mode o n) = lastPanZShift n
  /\ targetViewExtent (check_navigation_mode o n) = targetViewExtent n
  /\ targetPoint (check_navigation_mode o n) = targetPoint n.
Proof.
  unfold check_navigation_mode; destruct (geographicNavMode o);
    try destruct (_ <? _); repeat split.
Qed.

Lemma before_solver_navigation m :
  let n' := navigation (before_solver E m) in
  targetViewExtent n'
  = clamp E (targetViewExtent (navigation m))
          (positionViewExtentMin (options m))
          (positionViewExtentMax (options m))
  /\ match heightMode (pos m) with
     | floating =>
         panZQueue n'
         = [altitude_request (position (pos m)) (v2 (position (pos m)))]
         /\ lastPanZShift n' = None
     | fixed =>
         panZQueue n' = panZQueue (navigation m)
         /\ lastPanZShift n' = lastPanZShift (navigation m)
     end.
Proof.
  cbv zeta.
  unfold before_solver, auto_rotation, geographic_navigation, limit_zoom,
    ground_floating_position.
  destruct (heightMode (pos m)) eqn:Hh; simpl;
    destruct (navigationSrsType (mapConfig m)); simpl;
    repeat match goal with
      | |- context [limit_latitude E ?o ?n] =>
          let H := fresh in
          pose proof (limit_latitude_queue o n) as H;
          destruct H as (-> & -> & ->)
      | |- context [check_navigation_mode ?o ?n] =>
          let H := fresh in
          pose proof (check_navigation_mode_queue o n) as H;
          destruct H as (-> & -> & -> & _)
      end; simpl; repeat split.
Qed.

(** What the part of the tick after the solver leaves alone when it
    returns, and what it queues. *)
Lemma solve_and_move_returns m p r m' :
  solve_and_move E m p r = (Ok tt, m') ->
  heightMode (pos m') = heightMode (pos m)
  /\ pos_type (pos m') = pos_type (pos m)
  /\ verticalFov (pos m') = verticalFov (pos m)
  /\ panZQueue (navigation m')
     = panZQueue (enqueue_height_request (navigation m) (position (pos m')))
  /\ lastPanZShift (navigation m') = lastPanZShift (navigation m)
  /\ targetViewExtent (navigation m') = targetViewExtent (navigation m)
  /\ options m' = options m.
Proof.
  through_solve_and_move ltac:(discriminate).
  intros p3 r3 H; inversion H; subst; clear H; simpl.
  unfold enqueue_height_request; simpl.
  destruct (_ <? 2)%nat; simpl; repeat split.
Qed.

(** When it throws, nothing of the position has been committed but the
    extent. *)
Lemma solve_and_move_throws m p r e :
  fst (solve_and_move E m p r) = Throw e ->
  position (pos (snd (solve_and_move E m p r))) = position (pos m)
  /\ orientation (pos (snd (solve_and_move E m p r))) = orientation (pos m)
  /\ verticalFov (pos (snd (solve_and_move E m p r))) = verticalFov (pos m)
  /\ pos_type (pos (snd (solve_and_move E m p r))) = pos_type (pos m)
  /\ panZQueue (navigation (snd (solve_and_move E m p r)))
     = panZQueue (navigation m).
Proof.
  through_solve_and_move ltac:(intros _; simpl; repeat split).
  intros p3 r3; simpl; discriminate.
Qed.

Lemma checkPanZQueue_keeps_extent m :
  targetViewExtent (navigation (snd (checkPanZQueue E m)))
  = targetViewExtent (navigation m).
Proof.
  destruct (panZQueue (navigation m)) as [| task rest] eqn:Hq.
  - unfold checkPanZQueue; rewrite Hq; reflexivity.
  - destruct (HeightRequest_process E task m) as [[res task'] m1] eqn:Hp.
    rewrite (checkPanZQueue_front E _ _ _ _ _ _ Hq Hp).
    destruct res as [[] | e]; simpl; auto.
    destruct (result task') as [nh |]; simpl; auto.
    unfold apply_height.
    destruct (resetOffset task' =? resetOffset task');
      [| destruct (lastPanZShift (navigation m))]; reflexivity.
Qed.

(** X15. A tick that returns leaves the height mode fixed; and when it
    found the position floating, the queue it leaves holds exactly the
    absolute request for the old position, with the old altitude as its
    offset, followed by the fresh request for the committed position, and
    no sample is remembered. *)
Theorem updateNavigation_grounds_floating_position (m m' : MapImpl) :
  updateNavigation E m = (Ok tt, m') ->
  heightMode (pos m') = fixed
  /\ (heightMode (pos m) = floating ->
      panZQueue (navigation m')
      = [altitude_request (position (pos m)) (v2 (position (pos m)));
         HeightRequest_new (vec3to2 (position (pos m')))]
      /\ lastPanZShift (navigation m') = None).
Proof.
  unfold updateNavigation.
  pose proof (checkPanZQueue_frame E m) as H; cbv zeta in H.
  destruct H as (Hc & _).
  destruct (checkPanZQueue E m) as [[[] | e] m1]; [| discriminate].
  simpl in Hc; intros Hs.
  apply solve_and_move_returns in Hs.
  destruct Hs as (Hh & _ & _ & Hq & Hl & _).
  pose proof (before_solver_position m1) as (_ & _ & _ & _ & _ & Hf).
  pose proof (before_solver_navigation m1) as [_ Hn]; cbv zeta in Hn.
  split; [congruence |].
  unfold pos in *; rewrite Hc in *; intros Hfl; rewrite Hfl in Hn.
  destruct Hn as [Hn1 Hn2].
  rewrite Hq, Hl; unfold enqueue_height_request; rewrite Hn1; simpl.
  split; [reflexivity | exact Hn2].
Qed.

(** X16. A tick that returns leaves the target view extent between the
    configured minimum and maximum, for the [clamp] of the spec, ordered
    bounds and a target extent that is a number. *)
Theorem updateNavigation_limits_view_extent (m m' : MapImpl) :
  clamp_between E ->
  (targetViewExtent (navigation m) =? targetViewExtent (navigation m)) = true ->
  (positionViewExtentMin (options m) <=? positionViewExtentMax (options m))
  = true ->
  updateNavigation E m = (Ok tt, m') ->
  (positionViewExtentMin (options m) <=? targetViewExtent (navigation m'))
  = true
  /\ (targetViewExtent (navigation m') <=? positionViewExtentMax (options m))
     = true.
Proof.
  intros Hclamp Hv Hb; unfold updateNavigation.
  pose proof (checkPanZQueue_frame E m) as H; cbv zeta in H.
  destruct H as (_ & Ho & _).
  pose proof (checkPanZQueue_keeps_extent m) as Hx.
  destruct (checkPanZQueue E m) as [[[] | e] m1]; [| discriminate].
  simpl in Ho, Hx; intros Hs.
  apply solve_and_move_returns in Hs.
  destruct Hs as (_ & _ & _ & _ & _ & Ht & _).
  pose proof (before_solver_navigation m1) as [Hn _]; cbv zeta in Hn.
  rewrite Ht, Hn, Ho, Hx.
  apply clamp_between_bounds; assumption.
Qed.

Lemma before_solver_latitude m :
  navigationSrsType (mapConfig m) = geographic ->
  v1 (targetPoint (navigation (before_solver E m)))
  = match geographicMode (navigation (before_solver E m)) with
    | Azimuthal =>
        clamp E (v1 (targetPoint (navigation m)))
              (- navigationLatitudeThreshold (options m))
              (navigationLatitudeThreshold (options m))
    | _ => v1 (targetPoint (navigation m))
    end.
Proof.
  intros Hsrs.
  unfold before_solver, auto_rotation, geographic_navigation, limit_zoom,
    ground_floating_position.
  destruct (heightMode (pos m)); simpl; rewrite Hsrs; simpl;
    unfold limit_latitude, check_navigation_mode; simpl;
    (destruct (geographicNavMode (options m)); simpl;
     try destruct (_ <? _); simpl;
     try (destruct (geographicMode (navigation m)) eqn:Hg; simpl;
          rewrite ?Hg); reflexivity).
Qed.

(** X17. In a geographic navigation srs the solver of a tick is called
    with the latitude of the target clamped to the latitude threshold when
    the mode is azimuthal, which puts it between minus and plus the
    threshold for the [clamp] of the spec; in free mode the latitude is
    passed as it is. *)
Theorem updateNavigation_limits_latitude (m ms : MapImpl) :
  clamp_between E ->
  navigationSrsType (mapConfig m) = geographic ->
  (v1 (targetPoint (navigation m)) =? v1 (targetPoint (navigation m))) = true ->
  (- navigationLatitudeThreshold (options m)
   <=? navigationLatitudeThreshold (options m)) = true ->
  solver_state E m = Ok ms ->
  match geographicMode (navigation ms) with
  | Azimuthal =>
      (- navigationLatitudeThreshold (options m)
       <=? v1 (targetPoint (navigation ms))) = true
      /\ (v1 (targetPoint (navigation ms))
          <=? navigationLatitudeThreshold (options m)) = true
  | _ => v1 (targetPoint (navigation ms)) = v1 (targetPoint (navigation m))
  end.
Proof.
  intros Hclamp Hsrs Hv Hb; unfold solver_state.
  pose proof (checkPanZQueue_frame E m) as H; cbv zeta in H.
  destruct H as (Hc & Ho & _ & _ & Hlat & _).
  destruct (checkPanZQueue E m) as [[[] | e] m1]; [| discriminate].
  simpl in Hc, Ho, Hlat; intros Hs; inversion Hs; subst ms; clear Hs.
  rewrite <- Hc in Hsrs.
  rewrite (before_solver_latitude m1 Hsrs), Ho, Hlat.
  destruct (geographicMode (navigation (before_solver E m1))); auto.
  apply clamp_between_bounds; assumption.
Qed.

(** X18. How a pan ends.  It throws an invalid argument, leaving the map
    as it was, exactly in a cartesian navigation srs and in a geographic
    one whose mode is [Dynamic]; everywhere else it returns.  In a
    projected srs the move is always applied: the target moves by the
    rotated move. *)
Theorem pan_outcome (m : MapImpl) (value : vec3) :
  match navigationSrsType (mapConfig m) with
  | cartesian => pan E m value = (Throw invalid_argument, m)
  | geographic =>
      match geographicMode (navigation m) with
      | Dynamic => pan E m value = (Throw invalid_argument, m)
      | _ =>
          fst (pan E m value) = Ok tt
          /\ mapConfig (snd (pan E m value)) = mapConfig m
      end
  | projected =>
      fst (pan E m value) = Ok tt
      /\ mapConfig (snd (pan E m value)) = mapConfig m
      /\ targetPoint (navigation (snd (pan E m value)))
         = vec3_add (targetPoint (navigation m)) (pan_move E m value)
  end.
Proof.
  unfold pan.
  destruct (navigationSrsType (mapConfig m)); simpl; auto.
  destruct (geographicMode (navigation m)); simpl; auto;
    destruct (_ <? 150); simpl; auto.
Qed.

(** X19. A cartesian navigation srs is rejected: the camera and the
    switch between subjective and objective throw an invalid argument and
    leave the map as it was; a tick throws as well, and leaves the
    position and the orientation as they were. *)
Theorem cartesian_navigation_is_rejected (m : MapImpl) :
  navigationSrsType (mapConfig m) = cartesian ->
  positionToCamera E m = Throw invalid_argument
  /\ convertPositionSubjObj E m = (Throw invalid_argument, m)
  /\ (exists e, fst (updateNavigation E m) = Throw e)
  /\ position (pos (snd (updateNavigation E m))) = position (pos m)
  /\ orientation (pos (snd (updateNavigation E m))) = orientation (pos m).
Proof.
  intros Hsrs.
  assert (Hcam : positionToCamera E m = Throw invalid_argument)
    by (unfold positionToCamera; rewrite Hsrs; reflexivity).
  split; [exact Hcam |].
  split; [unfold convertPositionSubjObj; rewrite Hcam; reflexivity |].
  unfold updateNavigation.
  pose proof (checkPanZQueue_frame E m) as H; cbv zeta in H.
  destruct H as (Hc & _).
  destruct (checkPanZQueue E m) as [[[] | e] m1]; simpl in Hc.
  - pose proof (before_solver_settings E m1) as [Ht _].
    pose proof (before_solver_position m1) as (Hp & Hr & _).
    unfold solve_and_move, motion_inputs.
    rewrite Ht, Hc, Hsrs; simpl.
    unfold pos in *; rewrite Hc in *.
    split; [exists invalid_argument; reflexivity | split; assumption].
  - simpl; unfold pos; rewrite Hc.
    split; [exists e; reflexivity | split; reflexivity].
Qed.

(** X20. A tick that throws commits nothing of the move: the position, the
    orientation, the field of view and the type of the position are what
    they were before the tick. *)
Theorem updateNavigation_throw_keeps_position (m : MapImpl) (e : Failure) :
  fst (updateNavigation E m) = Throw e ->
  position (pos (snd (updateNavigation E m))) = position (pos m)
  /\ orientation (pos (snd (updateNavigation E m))) = orientation (pos m)
  /\ verticalFov (pos (snd (updateNavigation E m))) = verticalFov (pos m)
  /\ pos_type (pos (snd (updateNavigation E m))) = pos_type (pos m).
Proof.
  unfold updateNavigation.
  pose proof (checkPanZQueue_frame E m) as H; cbv zeta in H.
  destruct H as (Hc & _).
  destruct (checkPanZQueue E m) as [[[] | e1] m1]; simpl in Hc.
  - intros Hs.
    destruct (solve_and_move_throws _ _ _ _ Hs) as (Hp & Hr & Hf & Ht & _).
    pose proof (before_solver_position m1) as (Hp1 & Hr1 & _ & Hf1 & Ht1 & _).
    unfold pos in *; rewrite Hc in *.
    repeat split; congruence.
  - intros _; simpl; unfold pos; rewrite Hc; repeat split.
Qed.

Lemma enqueue_height_request_back n p :
  exists q0,
    panZQueue (enqueue_height_request n p) = q0 ++ [HeightRequest_new (vec3to2 p)]
    /\ (q0 = panZQueue n \/ q0 = removelast (panZQueue n)).
Proof.
  unfold enqueue_height_request.
  destruct (_ <? 2)%nat; simpl.
  - exists (panZQueue n); split; [reflexivity | auto].
  - exists (removelast (panZQueue n)); split; [reflexivity | auto].
Qed.

(** X21. A tick that returns leaves, at the back of the queue, a fresh
    request for the very position it has committed; what stands before it
    is the queue the solver was called with, less its last request when it
    already held two or more. *)
Theorem updateNavigation_enqueues_committed_position (m m' ms : MapImpl) :
  updateNavigation E m = (Ok tt, m') ->
  solver_state E m = Ok ms ->
  let q := panZQueue (navigation ms) in
  panZQueue (navigation m')
  = (if (List.length q <? 2)%nat then q else removelast q)
    ++ [HeightRequest_new (vec3to2 (position (pos m')))].
Proof.
  unfold updateNavigation, solver_state.
  destruct (checkPanZQueue E m) as [[[] | e] m1]; [| discriminate].
  intros Hs Hms; inversion Hms; subst ms; clear Hms.
  apply solve_and_move_returns in Hs.
  destruct Hs as (_ & _ & _ & Hq & _).
  cbv zeta; rewrite Hq; unfold enqueue_height_request.
  destruct (_ <? 2)%nat; reflexivity.
Qed.

(** X22. [resetNavigationGeographicMode] brings the dynamic mode back to
    azimuthal: in a geographic srs with the configured mode [Dynamic], a
    tick that follows it with the latitude of the target not beyond the
    threshold calls the solver in azimuthal mode, whatever the mode was
    before. *)
Theorem resetNavigationGeographicMode_then_tick (m ms : MapImpl) :
  navigationSrsType (mapConfig m) = geographic ->
  geographicNavMode (options m) = Dynamic ->
  (navigationLatitudeThreshold (options m) - 1e-5
   <? abs (v1 (targetPoint (navigation m)))) = false ->
  solver_state E (resetNavigationGeographicMode m) = Ok ms ->
  geographicMode (navigation ms) = Azimuthal.
Proof.
  intros Hsrs Hdyn Hlat; unfold solver_state.
  pose proof (checkPanZQueue_frame E (resetNavigationGeographicMode m)) as H.
  cbv zeta in H; destruct H as (Hc & Ho & Hg & _ & Hl & _).
  destruct (checkPanZQueue E (resetNavigationGeographicMode m))
    as [[[] | e] m1]; [| discriminate].
  simpl in Hc, Ho, Hg, Hl; intros Hs; inversion Hs; subst ms; clear Hs.
  rewrite before_solver_geographicMode, Hc, Ho, Hg, Hl.
  unfold resetNavigationGeographicMode; rewrite Hdyn; simpl.
  rewrite Hsrs, Hdyn, Hlat; reflexivity.
Qed.

(** X23. The gestures and the two resets act on the navigation state
    alone: each of [pan] (also when it throws), [rotate], [zoom],
    [setPoint], [setRotation], [setViewExtent], [resetPositionAltitude] and
    [resetNavigationGeographicMode] leaves the configuration with the
    position of the camera, the options, the tree of tiles and the
    statistics as they were. *)
Theorem gestures_leave_the_position
  (m : MapImpl) (value point euler : vec3) (amount viewExtent offset : double)
  (type : NavigationType) :
  let kept (m' : MapImpl) :=
    mapConfig m' = mapConfig m /\ options m' = options m
    /\ traverseRoot m' = traverseRoot m
    /\ lastHeightRequestLod m' = lastHeightRequestLod m in
  kept (snd (pan E m value))
  /\ kept (rotate m value)
  /\ kept (zoom E m amount)
  /\ kept (setPoint m point type)
  /\ kept (setRotation E m euler type)
  /\ kept (setViewExtent m viewExtent type)
  /\ kept (resetPositionAltitude m offset)
  /\ kept (resetNavigationGeographicMode m).
Proof.
  cbv zeta; repeat apply conj; try reflexivity.
  - unfold pan.
    destruct (navigationSrsType (mapConfig m)); simpl; auto.
    destruct (geographicMode (navigation m)); simpl; auto;
      destruct (_ <? 150); reflexivity.
  - unfold pan.
    destruct (navigationSrsType (mapConfig m)); simpl; auto.
    destruct (geographicMode (navigation m)); simpl; auto;
      destruct (_ <? 150); reflexivity.
  - unfold pan.
    destruct (navigationSrsType (mapConfig m)); simpl; auto.
    destruct (geographicMode (navigation m)); simpl; auto;
      destruct (_ <? 150); reflexivity.
  - unfold pan.
    destruct (navigationSrsType (mapConfig m)); simpl; auto.
    destruct (geographicMode (navigation m)); simpl; auto;
      destruct (_ <? 150); reflexivity.
  - unfold setPoint; destruct type; reflexivity.
  - unfold setPoint; destruct type; reflexivity.
  - unfold setPoint; destruct type; reflexivity.
  - unfold setPoint; destruct type; reflexivity.
  - unfold resetNavigationGeographicMode.
    destruct (geographicNavMode (options m)); reflexivity.
  - unfold resetNavigationGeographicMode.
    destruct (geographicNavMode (options m)); reflexivity.
  - unfold resetNavigationGeographicMode.
    destruct (geographicNavMode (options m)); reflexivity.
  - unfold resetNavigationGeographicMode.
    destruct (geographicNavMode (options m)); reflexivity.
Qed.

(** X24. The switch between subjective and objective, outside a cartesian
    srs: it returns, and moves the position from the centre of the camera
    along the view direction by the objective distance, backwards when the
    position is objective; the type of the position is not flipped, and
    the rest of the map is left alone. *)
Theorem convertPositionSubjObj_moves_along_view (m : MapImpl) :
  navigationSrsType (mapConfig m) <> cartesian ->
  exists dir up,
    positionToCamera E m = Ok (navToPhys E (position (pos m)), dir, up)
    /\ fst (convertPositionSubjObj E m) = Ok tt
    /\ pos (snd (convertPositionSubjObj E m))
       = mkPosition
           (physToNav E
              (vec3_add (navToPhys E (position (pos m)))
                 (vec3_scale dir
                    match pos_type (pos m) with
                    | objective => positionObjectiveDistance E m * -1
                    | subjective => positionObjectiveDistance E m
                    end)))
           (orientation (pos m)) (verticalExtent (pos m))
           (verticalFov (pos m)) (heightMode (pos m)) (pos_type (pos m))
    /\ navigation (snd (convertPositionSubjObj E m)) = navigation m
    /\ options (snd (convertPositionSubjObj E m)) = options m.
Proof.
  intros Hsrs; unfold convertPositionSubjObj, positionToCamera.
  destruct (navigationSrsType (mapConfig m)); [| | congruence];
    eexists; eexists; (split; [reflexivity |]); simpl; repeat split.
Qed.

End TickFacts.

Section LoopFacts.

Variable E : Collaborators.


End LoopFacts.

(** * The further properties on concrete inputs *)

(** X1 on the corner (2, 1, 1) of the small world: it finds the elevation
    11 and then answers without a tree. *)
Lemma CornerRequest_result_is_final_witness :
  let c := CornerRequest_new (flat_NodeInfo (mkTileId 2 1 1)) in
  let m := flat_map projected in
  let c' := snd (fst (CornerRequest_process flat c m)) in
  corner_result c' = Some 11
  /\ fst (fst (CornerRequest_process flat c m)) = Ok Valid
  /\ CornerRequest_process flat c' (set_traverseRoot m None)
     = (Ok Valid, c', set_traverseRoot m None).
Proof.
  cbv zeta.
  set (c := CornerRequest_new (flat_NodeInfo (mkTileId 2 1 1))).
  set (m := flat_map projected).
  assert (Hh : corner_result (snd (fst (CornerRequest_process flat c m)))
               = Some 11) by (vm_compute; reflexivity).
  destruct (CornerRequest_result_is_final flat c m
              (fst (fst (CornerRequest_process flat c m)))
              (snd (fst (CornerRequest_process flat c m)))
              (snd (CornerRequest_process flat c m)) 11
              ltac:(vm_compute; reflexivity) Hh) as [Ha Hfinal].
  split; [exact Hh | split].
  - rewrite Ha; vm_compute; reflexivity.
  - rewrite (Hfinal (set_traverseRoot m None)), Ha.
    vm_compute; reflexivity.
Defined.

(** X2 on the corner (2, 2, 2) while that tile is being loaded *)
Lemma CornerRequest_process_only_requests_loads_witness :
  let c := CornerRequest_new (flat_NodeInfo (mkTileId 2 2 2)) in
  let m := set_traverseRoot (flat_map projected) (Some flat_tree_loading) in
  let a := fst (fst (CornerRequest_process flat c m)) in
  let c' := snd (fst (CornerRequest_process flat c m)) in
  let m' := snd (CornerRequest_process flat c m) in
  a = Ok Indeterminate
  /\ (m' = m
      \/ (a = Ok Indeterminate
          /\ exists root p n',
              traverseRoot m = Some root /\ trav c' = Some p
              /\ node_at root p = Some n' /\ validity n' = Indeterminate
              /\ m' = set_traverseRoot m (Some (traverse flat p root)))).
Proof.
  cbv zeta; split; [vm_compute; reflexivity |].
  apply (CornerRequest_process_only_requests_loads flat
           (CornerRequest_new (flat_NodeInfo (mkTileId 2 2 2)))
           (set_traverseRoot (flat_map projected) (Some flat_tree_loading))).
  vm_compute; reflexivity.
Defined.

(** X3 on a fresh corner for the tile (2, 1, 1) *)
Lemma CornerRequest_process_cursor_descends_witness :
  let c := CornerRequest_new (flat_NodeInfo (mkTileId 2 1 1)) in
  let m := flat_map projected in
  let c' := snd (fst (CornerRequest_process flat c m)) in
  corner_nodeInfo c' = corner_nodeInfo c
  /\ exists p' n',
      trav c' = Some p' /\ node_at flat_tree p' = Some n'
      /\ forall p, trav c = Some p -> exists q, p' = p ++ q.
Proof.
  cbv zeta.
  apply (CornerRequest_process_cursor_descends flat
           (CornerRequest_new (flat_NodeInfo (mkTileId 2 1 1)))
           (flat_map projected) flat_tree).
  - reflexivity.
  - reflexivity.
  - simpl; intros p Hp; discriminate Hp.
Defined.

(** X4 on the same corner: the elevation 11 is that of the tile
    (2, 1, 1), the last child of the first child of the root *)
Lemma CornerRequest_process_elevation_source_witness :
  let c := CornerRequest_new (flat_NodeInfo (mkTileId 2 1 1)) in
  let m := flat_map projected in
  corner_result (snd (fst (CornerRequest_process flat c m))) = Some 11
  /\ exists root p n',
      traverseRoot m = Some root
      /\ trav (snd (fst (CornerRequest_process flat c m))) = Some p
      /\ node_at root p = Some n'
      /\ validity n' = Valid /\ surrogateValue n' = 11
      /\ (nodeId (trav_nodeInfo n') = nodeId (corner_nodeInfo c)
          \/ childs n' = [])
      /\ snd (CornerRequest_process flat c m) = m.
Proof.
  cbv zeta; split; [vm_compute; reflexivity |].
  apply (CornerRequest_process_elevation_source flat
           (CornerRequest_new (flat_NodeInfo (mkTileId 2 1 1)))
           (flat_map projected)
           (fst (fst (CornerRequest_process flat
                        (CornerRequest_new (flat_NodeInfo (mkTileId 2 1 1)))
                        (flat_map projected))))).
  - reflexivity.
  - vm_compute; reflexivity.
  - vm_compute; reflexivity.
Defined.

(** X5 on the descent from the root of the small world to the tile
    (2, 1, 1) *)
Lemma descend_shift_is_defined_witness :
  exists v, answer (descend flat (mkTileId 2 1 1) flat_tree []) = Ok v.
Proof.
  apply (descend_shift_is_defined flat (mkTileId 2 1 1) flat_tree).
  - simpl; lia.
  - left; simpl; lia.
Defined.

(** X6 on a request for the tile (1, 1, 0) whose cursor stands on the
    tile (1, 0, 0), which has a child *)
Lemma descend_at_target_lod_is_undefined_witness :
  answer (descend flat (mkTileId 1 1 0)
            (mkTraverseNode Valid (flat_NodeInfo (mkTileId 1 0 0)) 0
               [flat_quadtree (fun _ => Valid) 0 (mkTileId 2 0 0)])
            [])
  = Throw undefined_behaviour.
Proof.
  apply (descend_at_target_lod_is_undefined flat).
  - simpl; intros H; discriminate H.
  - simpl; lia.
  - simpl; lia.
Defined.

(** X8 on the tile (2, 1, 1) under a view extent of 100: 8 samples over
    90 degrees are coarse enough. *)
Lemma findInfoSdsSampled_result_witness :
  coarse_enough flat (flat_map projected) (flat_NodeInfo (mkTileId 2 1 1))
  = true
  /\ findInfoSdsSampled flat (flat_map projected)
       (flat_NodeInfo (mkTileId 2 1 1)) (Vec2 0 0)
     = Ok (flat_NodeInfo (mkTileId 2 1 1)).
Proof.
  split; [vm_compute; reflexivity |].
  apply (findInfoSdsSampled_result flat).
  vm_compute; reflexivity.
Defined.

(** X9 on a point at longitude 500 *)
Lemma HeightRequest_process_outside_roots_witness :
  HeightRequest_process flat (HeightRequest_new (Vec2 500 0))
                        (flat_map projected)
  = (Ok Invalid, HeightRequest_new (Vec2 500 0), flat_map projected).
Proof.
  apply (HeightRequest_process_outside_roots flat).
  - reflexivity.
  - reflexivity.
  - vm_compute; reflexivity.
Defined.

(** X10 on the point (0, 0) in the tile (2, 1, 1), whose centre lies to
    the west and to the north of it: the block is (1..2, 1..2). *)
Lemma prepare_corners_block_witness :
  let r' := prepare_corners flat (flat_request 5)
              (flat_NodeInfo (mkTileId 2 1 1)) (Vec2 0 0) in
  map (fun c => nodeId (corner_nodeInfo c)) (corners r')
  = [mkTileId 2 1 1; mkTileId 2 2 1; mkTileId 2 1 2; mkTileId 2 2 2]
  /\ Forall (fun c => trav c = None /\ corner_result c = None) (corners r').
Proof.
  cbv zeta.
  destruct (prepare_corners_block flat (flat_request 5)
              (flat_NodeInfo (mkTileId 2 1 1)) (Vec2 0 0))
    as (_ & _ & Hfresh & cx & cy & Hids & _).
  - intros id; reflexivity.
  - simpl; lia.
  - simpl; lia.
  - split; [vm_compute; reflexivity | exact Hfresh].
Defined.

(** X11 on the prepared request of the small world *)
Lemma HeightRequest_process_keeps_preparation_witness :
  let r := flat_prepared_request 5 in
  let r' := snd (fst (HeightRequest_process flat r (flat_map projected))) in
  corners r <> []
  /\ map corner_nodeInfo (corners r') = map corner_nodeInfo (corners r)
  /\ nodeInfo r' = nodeInfo r /\ sds r' = sds r /\ interpol r' = interpol r
  /\ navPos r' = navPos r /\ resetOffset r' = resetOffset r.
Proof.
  cbv zeta.
  assert (Hcs : corners (flat_prepared_request 5) <> [])
    by (vm_compute; intros H; discriminate H).
  split; [exact Hcs |].
  apply (HeightRequest_process_keeps_preparation flat
           (flat_prepared_request 5) (flat_map projected) Hcs).
Defined.

(** X12 on the request of the small world: once it holds 16.5 it answers
    without a tree. *)
Lemma HeightRequest_Valid_is_final_witness :
  let r' := snd (fst (HeightRequest_process flat (flat_request 5)
                        (flat_map projected))) in
  let m2 := set_traverseRoot (flat_map projected) None in
  fst (fst (HeightRequest_process flat (flat_request 5) (flat_map projected)))
  = Ok Valid
  /\ HeightRequest_process flat r' m2 = (Ok Valid, r', m2).
Proof.
  cbv zeta; split; [vm_compute; reflexivity |].
  destruct (HeightRequest_Valid_is_final flat (flat_request 5)
              (flat_map projected)
              (snd (fst (HeightRequest_process flat (flat_request 5)
                           (flat_map projected))))
              (snd (HeightRequest_process flat (flat_request 5)
                      (flat_map projected))))
    as [_ Hfinal].
  - vm_compute; reflexivity.
  - apply Hfinal.
Defined.

(** X13 on the empty queue of the map after initialisation *)
Lemma checkPanZQueue_changes_height_only_witness :
  panZQueue (navigation (flat_map projected)) = []
  /\ checkPanZQueue flat (flat_map projected) = (Ok tt, flat_map projected).
Proof.
  split; [reflexivity |].
  destruct (checkPanZQueue_changes_height_only flat (flat_map projected))
    as (_ & _ & _ & _ & _ & _ & _ & _ & _ & _ & Hempty).
  apply Hempty; reflexivity.
Defined.

(** X14 with offset 5 over terrain of height 16.5 *)
Lemma resetPositionAltitude_then_checkPanZQueue_witness :
  let m0 := resetPositionAltitude (flat_map projected) 5 in
  fst (checkPanZQueue flat m0) = Ok tt
  /\ panZQueue (navigation (snd (checkPanZQueue flat m0))) = []
  /\ lastPanZShift (navigation (snd (checkPanZQueue flat m0))) = Some 16.5
  /\ v2 (targetPoint (navigation (snd (checkPanZQueue flat m0)))) = 21.5.
Proof.
  cbv zeta.
  destruct (resetPositionAltitude_then_checkPanZQueue flat
              (flat_map projected) 5
              (snd (fst (HeightRequest_process flat
                           (altitude_request
                              (position (pos (flat_map projected))) 5)
                           (resetPositionAltitude (flat_map projected) 5))))
              (snd (HeightRequest_process flat
                      (altitude_request
                         (position (pos (flat_map projected))) 5)
                      (resetPositionAltitude (flat_map projected) 5))))
    as (nh & Hnh & Hok & Hq & Hlast & _ & _ & Hz).
  - vm_compute; reflexivity.
  - vm_compute in Hnh; inversion Hnh; subst nh.
    split; [exact Hok | split; [exact Hq | split; [exact Hlast |]]].
    rewrite Hz; vm_compute; reflexivity.
Defined.

(** X15 on the small world with a floating position *)
Lemma updateNavigation_grounds_floating_position_witness :
  let m := set_pos (flat_map projected)
                   (mkPosition (Vec3 0 0 100) (Vec3 0 270 0) 100 45 floating
                               objective) in
  let m' := snd (updateNavigation flat m) in
  fst (updateNavigation flat m) = Ok tt
  /\ heightMode (pos m') = fixed
  /\ panZQueue (navigation m')
     = [altitude_request (Vec3 0 0 100) 100;
        HeightRequest_new (vec3to2 (position (pos m')))]
  /\ lastPanZShift (navigation m') = None.
Proof.
  cbv zeta; split; [vm_compute; reflexivity |].
  destruct (updateNavigation_grounds_floating_position flat
              (set_pos (flat_map projected)
                 (mkPosition (Vec3 0 0 100) (Vec3 0 270 0) 100 45 floating
                             objective))
              (snd (updateNavigation flat
                      (set_pos (flat_map projected)
                         (mkPosition (Vec3 0 0 100) (Vec3 0 270 0) 100 45
                                     floating objective)))))
    as [Hfixed Hfloat].
  - vm_compute; reflexivity.
  - split; [exact Hfixed | exact (Hfloat eq_refl)].
Defined.

(** X16 on the first tick of the small world: the target extent 100 lies
    between 75 and 10000000. *)
Lemma updateNavigation_limits_view_extent_witness :
  let m' := snd (updateNavigation flat (flat_map projected)) in
  fst (updateNavigation flat (flat_map projected)) = Ok tt
  /\ (75 <=? targetViewExtent (navigation m')) = true
  /\ (targetViewExtent (navigation m') <=? 10000000) = true.
Proof.
  cbv zeta; split; [vm_compute; reflexivity |].
  apply (updateNavigation_limits_view_extent flat (flat_map projected)
           (snd (updateNavigation flat (flat_map projected)))
           flat_clamp_between).
  - vm_compute; reflexivity.
  - vm_compute; reflexivity.
  - vm_compute; reflexivity.
Defined.

(** X17 on the first tick of the small world in a geographic srs *)
Lemma updateNavigation_limits_latitude_witness :
  let m := flat_map geographic in
  solver_state flat m = Ok (before_solver flat m)
  /\ match geographicMode (navigation (before_solver flat m)) with
     | Azimuthal =>
         (- navigationLatitudeThreshold (options m)
          <=? v1 (targetPoint (navigation (before_solver flat m)))) = true
         /\ (v1 (targetPoint (navigation (before_solver flat m)))
             <=? navigationLatitudeThreshold (options m)) = true
     | _ =>
         v1 (targetPoint (navigation (before_solver flat m)))
         = v1 (targetPoint (navigation m))
     end.
Proof.
  cbv zeta.
  assert (Hs : solver_state flat (flat_map geographic)
               = Ok (before_solver flat (flat_map geographic)))
    by (vm_compute; reflexivity).
  split; [exact Hs |].
  apply (updateNavigation_limits_latitude flat (flat_map geographic) _
           flat_clamp_between).
  - reflexivity.
  - vm_compute; reflexivity.
  - vm_compute; reflexivity.
  - exact Hs.
Defined.

(** X19 on the small world in a cartesian srs *)
Lemma cartesian_navigation_is_rejected_witness :
  let m := flat_map cartesian in
  positionToCamera flat m = Throw invalid_argument
  /\ convertPositionSubjObj flat m = (Throw invalid_argument, m)
  /\ (exists e, fst (updateNavigation flat m) = Throw e)
  /\ position (pos (snd (updateNavigation flat m))) = position (pos m)
  /\ orientation (pos (snd (updateNavigation flat m))) = orientation (pos m).
Proof.
  cbv zeta.
  apply (cartesian_navigation_is_rejected flat (flat_map cartesian)).
  reflexivity.
Defined.

(** X20 on the tick of the small world in a cartesian srs *)
Lemma updateNavigation_throw_keeps_position_witness :
  let m := flat_map cartesian in
  fst (updateNavigation flat m) = Throw invalid_argument
  /\ position (pos (snd (updateNavigation flat m))) = position (pos m)
  /\ orientation (pos (snd (updateNavigation flat m))) = orientation (pos m)
  /\ verticalFov (pos (snd (updateNavigation flat m))) = verticalFov (pos m)
  /\ pos_type (pos (snd (updateNavigation flat m))) = pos_type (pos m).
Proof.
  cbv zeta.
  assert (Ht : fst (updateNavigation flat (flat_map cartesian))
               = Throw invalid_argument) by (vm_compute; reflexivity).
  split; [exact Ht |].
  apply (updateNavigation_throw_keeps_position flat (flat_map cartesian)
           invalid_argument Ht).
Defined.

(** X21 on the first tick of the small world *)
Lemma updateNavigation_enqueues_committed_position_witness :
  let m := flat_map projected in
  let m' := snd (updateNavigation flat m) in
  fst (updateNavigation flat m) = Ok tt
  /\ panZQueue (navigation m')
     = [HeightRequest_new (vec3to2 (position (pos m')))].
Proof.
  cbv zeta; split; [vm_compute; reflexivity |].
  rewrite (updateNavigation_enqueues_committed_position flat
             (flat_map projected)
             (snd (updateNavigation flat (flat_map projected)))
             (before_solver flat (flat_map projected))).
  - reflexivity.
  - vm_compute; reflexivity.
  - vm_compute; reflexivity.
Defined.

(** X22 after a [rotate] has made the mode free *)
Lemma resetNavigationGeographicMode_then_tick_witness :
  let m := rotate (flat_map geographic) (Vec3 0 0 0) in
  geographicMode (navigation m) = Free
  /\ solver_state flat (resetNavigationGeographicMode m)
     = Ok (before_solver flat (resetNavigationGeographicMode m))
  /\ geographicMode
       (navigation (before_solver flat (resetNavigationGeographicMode m)))
     = Azimuthal.
Proof.
  cbv zeta.
  assert (Hs : solver_state flat
                 (resetNavigationGeographicMode
                    (rotate (flat_map geographic) (Vec3 0 0 0)))
               = Ok (before_solver flat
                       (resetNavigationGeographicMode
                          (rotate (flat_map geographic) (Vec3 0 0 0)))))
    by (vm_compute; reflexivity).
  split; [reflexivity | split; [exact Hs |]].
  apply (resetNavigationGeographicMode_then_tick flat
           (rotate (flat_map geographic) (Vec3 0 0 0)) _).
  - reflexivity.
  - reflexivity.
  - vm_compute; reflexivity.
  - exact Hs.
Defined.

(** X24 on the small world: the objective position goes back by the
    objective distance 50 along the view direction. *)
Lemma convertPositionSubjObj_moves_along_view_witness :
  let m := flat_map projected in
  fst (convertPositionSubjObj flat m) = Ok tt
  /\ pos_type (pos (snd (convertPositionSubjObj flat m))) = objective
  /\ position (pos (snd (convertPositionSubjObj flat m))) = Vec3 0 (-50) 100.
Proof.
  cbv zeta.
  destruct (convertPositionSubjObj_moves_along_view flat (flat_map projected))
    as (dir & up & Hcam & Hok & Hpos & _).
  - simpl; intros H; discriminate H.
  - split; [exact Hok |].
    vm_compute in Hcam; inversion Hcam; subst dir up.
    rewrite Hpos; split; vm_compute; reflexivity.
Defined.

